(** * Cascade lifecycle node (rclpy_cascade_lifecycle)

    A shallow embedding of [CascadeLifecycleNode] from
    [rclpy_cascade_lifecycle/cascade_lifecycle_node.py]: the activation
    registry kept by each node, the two inbound message handlers, the public
    activation API, the cascade decision ([update_state]) and the periodic
    reconciliation ([timer_callback]).

    Python objects are mutated in place and may raise; the embedding threads
    the node through a small state-and-exception monad, so that what a
    handler has already written is still there when it raises. *)

From Stdlib Require Import ZArith.
From stdpp Require Import gmap strings list fin_maps.

Local Open Scope Z_scope.
Local Open Scope string_scope.

(** ** Messages and constants of the ROS interface packages *)

(** The state ids of [lifecycle_msgs.msg.State] are named, not defined, by
    the source; they are numbered here in the order in which the spec's
    [LifecycleState] lists them.  The handlers only compare them. *)

(** Modelled from the spec: [LifecycleState] value [Unknown]. *)
Definition PRIMARY_STATE_UNKNOWN : Z := 0.
(** Modelled from the spec: [LifecycleState] value [Unconfigured]. *)
Definition PRIMARY_STATE_UNCONFIGURED : Z := 1.
(** Modelled from the spec: [LifecycleState] value [Inactive]. *)
Definition PRIMARY_STATE_INACTIVE : Z := 2.
(** Modelled from the spec: [LifecycleState] value [Active]. *)
Definition PRIMARY_STATE_ACTIVE : Z := 3.
(** Modelled from the spec: [LifecycleState] value [Finalized]. *)
Definition PRIMARY_STATE_FINALIZED : Z := 4.

(** [cascade_lifecycle_msgs.msg.Activation]: a relationship announcement
    ([activation] is the target, [activator] the node that activates it). *)
Module Activation.
Record t := Build { operation_type : Z; activation : string; activator : string }.
(** Modelled from the spec: the operation code [ADD] of the relationship
    message, which the source only names. *)
Definition ADD : Z := 0.
(** Modelled from the spec: the operation code [REMOVE] of the relationship
    message, which the source only names. *)
Definition REMOVE : Z := 1.
End Activation.

(** [cascade_lifecycle_msgs.msg.State]: a state announcement. *)
Module State.
Record t := Build { node_name : string; state : Z }.
End State.

(** The three transitions the node requests of its host
    ([trigger_configure], [trigger_activate], [trigger_deactivate]). *)
Inductive Transition := Configure | Activate | Deactivate.

(** What a handler does to the outside world, in the order it does it. *)
Inductive Event :=
| PubActivation (msg : Activation.t)   (* self._activators_pub.publish(msg) *)
| PubState (msg : State.t)             (* self._states_pub.publish(msg) *)
| Trigger (t : Transition).            (* self.trigger_...() *)

(** Python compares the state machine's label (a [str]) with a recorded
    state id (an [int]) in [timer_callback]; [==] between the two types is
    [False]. *)
Inductive pyval := PyStr (s : string) | PyInt (z : Z).

Definition py_eq (a b : pyval) : bool :=
  match a, b with
  | PyStr s, PyStr s' => bool_decide (s = s')
  | PyInt z, PyInt z' => bool_decide (z = z')
  | _, _ => false
  end.

(** ** The node *)

Record Node := mkNode {
  _node_name : string;
  _activators : list string;            (* self._activators = [] *)
  _activations : list string;           (* self._activations = [] *)
  _activators_state : gmap string Z;    (* self._activators_state = {} *)
  current_state : string;               (* self._state_machine.current_state[1] *)
  effects : list Event                  (* publications and requests, oldest first *)
}.

Definition set_activators (l : list string) (n : Node) : Node :=
  mkNode (_node_name n) l (_activations n) (_activators_state n)
         (current_state n) (effects n).
Definition set_activations (l : list string) (n : Node) : Node :=
  mkNode (_node_name n) (_activators n) l (_activators_state n)
         (current_state n) (effects n).
Definition set_activators_state (m : gmap string Z) (n : Node) : Node :=
  mkNode (_node_name n) (_activators n) (_activations n) m
         (current_state n) (effects n).
Definition set_current_state (s : string) (n : Node) : Node :=
  mkNode (_node_name n) (_activators n) (_activations n) (_activators_state n)
         s (effects n).
Definition emit (e : Event) (n : Node) : Node :=
  mkNode (_node_name n) (_activators n) (_activations n) (_activators_state n)
         (current_state n) (effects n ++ [e]).

(** ** Handlers as computations on the node *)

Inductive Exn := KeyError (k : string) | ValueError (x : string).

Inductive Outcome (A : Type) :=
| Ret (a : A) (n : Node)        (* returned normally *)
| Raise (e : Exn) (n : Node)    (* raised, leaving the node as it was then *)
| OutOfFuel.                    (* the loop bound of the model was too small *)
Arguments Ret {A} a n.
Arguments Raise {A} e n.
Arguments OutOfFuel {A}.

Definition Py (A : Type) : Type := Node → Outcome A.

Definition ret {A} (a : A) : Py A := λ n, Ret a n.
Definition bind {A B} (c : Py A) (k : A → Py B) : Py B :=
  λ n, match c n with
       | Ret a n' => k a n'
       | Raise e n' => Raise e n'
       | OutOfFuel => OutOfFuel
       end.
Definition raise {A} (e : Exn) : Py A := λ n, Raise e n.
Definition gets {A} (f : Node → A) : Py A := λ n, Ret (f n) n.
Definition modify (f : Node → Node) : Py unit := λ n, Ret tt (f n).

Declare Scope py_scope.
Delimit Scope py_scope with py.
Notation "x <- c ;; k" := (bind c (λ x, k))
  (at level 100, c at next level, right associativity) : py_scope.
Notation "c ;; k" := (bind c (λ _, k))
  (at level 100, right associativity) : py_scope.
Local Open Scope py_scope.

(** [for x in l: body(x)] over a list the body does not change. *)
Fixpoint for_each (l : list string) (body : string → Py unit) : Py unit :=
  match l with
  | [] => ret tt
  | x :: l' => body x ;; for_each l' body
  end.

(** [l.remove(x)]: drops the first occurrence; [None] when there is none
    (Python raises [ValueError]). *)
Fixpoint list_remove (x : string) (l : list string) : option (list string) :=
  match l with
  | [] => None
  | y :: l' => if bool_decide (y = x) then Some l'
               else cons y <$> list_remove x l'
  end.

(** [self._activators.remove(x)] *)
Definition activators_remove (x : string) : Py unit :=
  l <- gets _activators ;;
  match list_remove x l with
  | Some l' => modify (set_activators l')
  | None => raise (ValueError x)
  end.

(** [self._activators_state[k]] *)
Definition activators_state_get (k : string) : Py Z :=
  m <- gets _activators_state ;;
  match m !! k with
  | Some s => ret s
  | None => raise (KeyError k)
  end.

(** [del self._activators_state[k]] *)
Definition activators_state_del (k : string) : Py unit :=
  m <- gets _activators_state ;;
  match m !! k with
  | Some _ => modify (set_activators_state (delete k m))
  | None => raise (KeyError k)
  end.

(** The loop shared by [update_state] and the REMOVE handler:
    [for activator in self._activators_state: flag = flag or
    self._activators_state[activator] == s].  The flag is a disjunction, so
    the order in which the dictionary yields its keys does not matter. *)
Definition any_activator_in (s : Z) (m : gmap string Z) : bool :=
  foldl (λ flag kv, flag || bool_decide (kv.2 = s)) false (map_to_list m).

Section Host.

(** The host's lifecycle engine: the label it moves to when asked for a
    transition from a given label. *)
Variable host_step : Transition → string → string.

(** [self.trigger_configure()] and its two siblings: the request is logged
    and the state machine moves as the host decides.  The hooks the host
    calls back while it carries a transition out ([on_configure] and the
    others, each of which publishes the new state) are the host's side of
    the call and are left out. *)
Definition trigger (t : Transition) : Py unit :=
  modify (emit (Trigger t)) ;;
  modify (λ n, set_current_state (host_step t (current_state n)) n).

Definition update_state : Py unit :=
  m <- gets _activators_state ;;
  let parent_inactive := any_activator_in PRIMARY_STATE_INACTIVE m in
  let parent_active := any_activator_in PRIMARY_STATE_ACTIVE m in
  current_state <- gets current_state ;;
  if bool_decide (current_state = "unknown") then
    if parent_active || parent_inactive then trigger Configure else ret tt
  else if bool_decide (current_state = "unconfigured") then
    if parent_active || parent_inactive then trigger Configure else ret tt
  else if bool_decide (current_state = "inactive") then
    if parent_active then trigger Activate else ret tt
  else if bool_decide (current_state = "active") then
    if negb parent_active && parent_inactive then trigger Deactivate else ret tt
  else ret tt.

(** *** Inbound messages *)

Definition activations_callback (msg : Activation.t) : Py unit :=
  let activator := Activation.activator msg in
  node_name <- gets _node_name ;;
  if bool_decide (Activation.operation_type msg = Activation.ADD) then
    if bool_decide (Activation.activation msg = node_name) then
      modify (λ n, set_activators (_activators n ++ [activator]) n) ;;
      m <- gets _activators_state ;;
      if bool_decide (m !! activator = None) then
        modify (set_activators_state (<[activator := PRIMARY_STATE_UNKNOWN]> m))
      else ret tt
    else ret tt
  else if bool_decide (Activation.operation_type msg = Activation.REMOVE) then
    activators <- gets _activators ;;
    if bool_decide (Activation.activation msg = node_name)
       && bool_decide (activator ∉ activators) then
      remover_state <- activators_state_get activator ;;
      activators_remove activator ;;
      m <- gets _activators_state ;;
      (if bool_decide (is_Some (m !! activator)) then
         modify (set_activators_state (delete activator m))
       else ret tt) ;;
      if bool_decide (remover_state = PRIMARY_STATE_ACTIVE) then
        m' <- gets _activators_state ;;
        let any_other_active := any_activator_in PRIMARY_STATE_ACTIVE m' in
        if negb any_other_active then trigger Deactivate else ret tt
      else ret tt
    else ret tt
  else ret tt.

Definition states_callback (msg : State.t) : Py unit :=
  let name := State.node_name msg in
  m <- gets _activators_state ;;
  node_name <- gets _node_name ;;
  if bool_decide (is_Some (m !! name)) && bool_decide (name ≠ node_name) then
    if bool_decide (m !! name ≠ Some (State.state msg)) then
      modify (set_activators_state (<[name := State.state msg]> m)) ;;
      update_state
    else ret tt
  else ret tt.

(** *** The activation API *)

Definition add_activation (node_name : string) : Py unit :=
  self_name <- gets _node_name ;;
  if bool_decide (node_name ≠ self_name) then
    let msg := Activation.Build Activation.ADD node_name self_name in
    modify (λ n, set_activations (_activations n ++ [node_name]) n) ;;
    modify (emit (PubActivation msg))
  else ret tt.

Definition remove_activation (node_name : string) : Py unit :=
  self_name <- gets _node_name ;;
  if bool_decide (node_name ≠ self_name) then
    let msg := Activation.Build Activation.REMOVE node_name self_name in
    modify (λ n, set_activations (_activations n ++ [node_name]) n) ;;
    modify (emit (PubActivation msg))
  else ret tt.

(** [remove_activation] never touches [self._activators], so the loop runs
    over the list as it is on entry. *)
Definition clear_activation : Py unit :=
  activators <- gets _activators ;;
  for_each activators remove_activation.

(** *** The reconciler *)

(** The [while True] loop of [timer_callback].  [it] is the cursor of the
    list iterator [iter(self._activators)]: [next(it)] reads the list as it
    is now at that index and moves the cursor on, and raises
    [StopIteration] past the end.  The value is the names the loop bound to
    [node_name], in order; the source keeps no such list, it is returned so
    that theorems can say which entries a pass examines. *)
Fixpoint timer_loop (fuel : nat) (nodes : list string) (ns : string)
    (current_state : string) (it : nat) : Py (list string) :=
  match fuel with
  | O => λ _, OutOfFuel
  | S fuel' =>
    activators <- gets _activators ;;
    match activators !! it with
    | None => ret []                                (* StopIteration: break *)
    | Some node_name =>
      if bool_decide (ns +:+ node_name ∈ nodes) then
        activators_remove node_name ;;
        s <- activators_state_get node_name ;;
        (if py_eq (PyStr current_state) (PyInt s) then update_state
         else ret tt) ;;
        activators_state_del node_name ;;
        visited <- timer_loop fuel' nodes ns current_state (S it) ;;
        ret (node_name :: visited)
      else
        (* it.__next__() *)
        activators' <- gets _activators ;;
        match activators' !! S it with
        | None => ret [node_name]                   (* StopIteration: break *)
        | Some _ =>
          visited <- timer_loop fuel' nodes ns current_state (S (S it)) ;;
          ret (node_name :: visited)
        end
    end
  end.

(** [nodes] is [self.get_node_names()], [ns] is [self.get_namespace()]. *)
Definition timer_callback (nodes : list string) (ns : string) : Py unit :=
  current_state <- gets current_state ;;
  let ns := if bool_decide (ns ≠ "/") then ns +:+ "/" else ns in
  activators <- gets _activators ;;
  timer_loop (S (length activators)) nodes ns current_state 0 ;;
  node_name <- gets _node_name ;;
  let state :=
    if bool_decide (current_state = "unknown") then PRIMARY_STATE_UNKNOWN
    else if bool_decide (current_state = "unconfigured") then PRIMARY_STATE_UNCONFIGURED
    else if bool_decide (current_state = "inactive") then PRIMARY_STATE_INACTIVE
    else if bool_decide (current_state = "active") then PRIMARY_STATE_ACTIVE
    else 0 (* the field's default *) in
  modify (emit (PubState (State.Build node_name state))) ;;
  update_state.

End Host.

(** A host that follows the primary states of the managed-node life cycle;
    used to run the handlers on concrete nodes. *)
Definition lifecycle_host (t : Transition) (label : string) : string :=
  match t with
  | Configure => if bool_decide (label = "unconfigured") then "inactive" else label
  | Activate => if bool_decide (label = "inactive") then "active" else label
  | Deactivate => if bool_decide (label = "active") then "inactive" else label
  end.

(** The node as a handler leaves it, whether it returns or raises. *)
Definition outcome_node {A} (o : Outcome A) : option Node :=
  match o with
  | Ret _ n | Raise _ n => Some n
  | OutOfFuel => None
  end.

(** ** Concrete nodes and messages *)

(** A node just constructed: empty registry, nothing emitted. *)
Definition fresh (name : string) : Node :=
  mkNode name [] [] ∅ "unconfigured" [].

Definition ADD_msg (target activator : string) : Activation.t :=
  Activation.Build Activation.ADD target activator.
Definition REMOVE_msg (target activator : string) : Activation.t :=
  Activation.Build Activation.REMOVE target activator.

(** ** Notions used by the theorems *)

(** Every second entry of a list, starting with the first. *)
Fixpoint every_other (l : list string) : list string :=
  match l with
  | [] => []
  | x :: l' => x :: match l' with
                    | [] => []
                    | _ :: l'' => every_other l''
                    end
  end.

(** Every tracked activator has a record (a dictionary holds at most one per
    key). *)
Definition edges_have_records (n : Node) : Prop :=
  ∀ a, a ∈ _activators n → is_Some (_activators_state n !! a).

(** Every record belongs to a tracked activator. *)
Definition records_have_edges (n : Node) : Prop :=
  ∀ a, is_Some (_activators_state n !! a) → a ∈ _activators n.

(** ** The transition hooks *)

(** The host calls these six methods while it carries a transition out; each
    publishes the state the node is entering and hands over to the method of
    [LifecycleNode] it overrides.  [LState] is rclpy's [State],
    [CallbackReturn] its [TransitionCallbackReturn], and the [super_...]
    functions are the overridden methods. *)
Section Hooks.
Variables LState CallbackReturn : Type.
Variables super_on_configure super_on_cleanup super_on_shutdown
          super_on_activate super_on_deactivate super_on_error
  : LState → CallbackReturn.

Definition on_configure (state : LState) : Py CallbackReturn :=
  node_name <- gets _node_name ;;
  modify (emit (PubState (State.Build node_name PRIMARY_STATE_INACTIVE))) ;;
  ret (super_on_configure state).

Definition on_cleanup (state : LState) : Py CallbackReturn :=
  node_name <- gets _node_name ;;
  modify (emit (PubState (State.Build node_name PRIMARY_STATE_UNCONFIGURED))) ;;
  ret (super_on_cleanup state).

Definition on_shutdown (state : LState) : Py CallbackReturn :=
  node_name <- gets _node_name ;;
  modify (emit (PubState (State.Build node_name PRIMARY_STATE_FINALIZED))) ;;
  ret (super_on_shutdown state).

Definition on_activate (state : LState) : Py CallbackReturn :=
  node_name <- gets _node_name ;;
  modify (emit (PubState (State.Build node_name PRIMARY_STATE_ACTIVE))) ;;
  ret (super_on_activate state).

Definition on_deactivate (state : LState) : Py CallbackReturn :=
  node_name <- gets _node_name ;;
  modify (emit (PubState (State.Build node_name PRIMARY_STATE_INACTIVE))) ;;
  ret (super_on_deactivate state).

Definition on_error (state : LState) : Py CallbackReturn :=
  node_name <- gets _node_name ;;
  modify (emit (PubState (State.Build node_name PRIMARY_STATE_FINALIZED))) ;;
  ret (super_on_error state).

End Hooks.

(** ** Runs of a node *)

(** What can happen to a node: a message arrives on one of its two
    subscriptions, its timer fires, or its owner calls the activation API. *)
Inductive Input :=
| RecvActivation (msg : Activation.t)
| RecvState (msg : State.t)
| Tick (nodes : list string) (ns : string)
| CallAdd (node_name : string)
| CallRemove (node_name : string)
| CallClear.

Definition handle (host : Transition → string → string) (i : Input) : Py unit :=
  match i with
  | RecvActivation msg => activations_callback host msg
  | RecvState msg => states_callback host msg
  | Tick nodes ns => timer_callback host nodes ns
  | CallAdd node_name => add_activation node_name
  | CallRemove node_name => remove_activation node_name
  | CallClear => clear_activation
  end.

(** [reaches host n n']: some sequence of inputs takes the node from [n] to
    [n'].  A handler that raises leaves the node as it was at the raise, and
    the run may go on from there. *)
Inductive reaches (host : Transition → string → string) : Node → Node → Prop :=
| reaches_here (n : Node) : reaches host n n
| reaches_step (n n1 n' : Node) (i : Input) :
    outcome_node (handle host i n) = Some n1 →
    reaches host n1 n' →
    reaches host n n'.

(** The state id the timer puts in its announcement for a label. *)
Definition heartbeat_state (label : string) : Z :=
  if bool_decide (label = "unknown") then PRIMARY_STATE_UNKNOWN
  else if bool_decide (label = "unconfigured") then PRIMARY_STATE_UNCONFIGURED
  else if bool_decide (label = "inactive") then PRIMARY_STATE_INACTIVE
  else if bool_decide (label = "active") then PRIMARY_STATE_ACTIVE
  else 0.

(** ** The cascade decision *)

Lemma foldl_orb_true {A} (f : A → bool) (l : list A) (b : bool) :
  foldl (λ flag x, flag || f x) b l = true ↔ b = true ∨ ∃ x, x ∈ l ∧ f x = true.
Proof.
  revert b. induction l as [|y l IH]; intros b; simpl.
  - split; [auto | intros [?|(x & Hx & _)]; [done | by apply elem_of_nil in Hx]].
  - rewrite IH, orb_true_iff. split.
    + intros [[?|?]|(x & ? & ?)]; [by left | right; exists y | right; exists x].
      * split; [apply list_elem_of_here | done].
      * split; [by apply list_elem_of_further | done].
    + intros [?|(x & Hx & ?)]; [by left; left |].
      apply elem_of_cons in Hx as [->|?]; [by left; right | right; eauto].
Qed.

(** The flag computed by the loop is the spec's "some activator has state
    [s]". *)
Lemma any_activator_in_spec (s : Z) (m : gmap string Z) :
  any_activator_in s m = true ↔ ∃ a, m !! a = Some s.
Proof.
  unfold any_activator_in. rewrite foldl_orb_true. split.
  - intros [?|([a s'] & Hin & Hs)]; [done |].
    apply elem_of_map_to_list in Hin. apply bool_decide_eq_true in Hs.
    simpl in Hs. subst s'. by exists a.
  - intros [a Ha]. right. exists (a, s). split.
    + by apply elem_of_map_to_list.
    + by apply bool_decide_eq_true.
Qed.

Lemma any_activator_in_false (s : Z) (m : gmap string Z) :
  any_activator_in s m = false ↔ ¬ ∃ a, m !! a = Some s.
Proof. rewrite <- any_activator_in_spec. by destruct (any_activator_in s m). Qed.

Lemma any_activator_in_empty (s : Z) : any_activator_in s ∅ = false.
Proof. apply any_activator_in_false. intros [a Ha]. by rewrite lookup_empty in Ha. Qed.

Section Decision.
Variable host : Transition → string → string.

(** C6. [update_state] is the decision table of the cascade decision engine:
    configure when the node is Unconfigured or Unknown and some activator is
    Active or Inactive; activate when the node is Inactive and some activator
    is Active; deactivate when the node is Active, no activator is Active and
    some activator is Inactive; nothing in every other case. *)
Theorem update_state_decision (n : Node) :
  let anyActive := ∃ a, _activators_state n !! a = Some PRIMARY_STATE_ACTIVE in
  let anyInactive := ∃ a, _activators_state n !! a = Some PRIMARY_STATE_INACTIVE in
  let to_configure :=
    (current_state n = "unconfigured" ∨ current_state n = "unknown")
    ∧ (anyActive ∨ anyInactive) in
  let to_activate := current_state n = "inactive" ∧ anyActive in
  let to_deactivate := current_state n = "active" ∧ ¬ anyActive ∧ anyInactive in
  (to_configure → update_state host n = trigger host Configure n)
  ∧ (to_activate → update_state host n = trigger host Activate n)
  ∧ (to_deactivate → update_state host n = trigger host Deactivate n)
  ∧ (¬ to_configure ∧ ¬ to_activate ∧ ¬ to_deactivate →
     update_state host n = Ret tt n).
Proof.
  intros anyActive anyInactive to_configure to_activate to_deactivate.
  assert (HA : any_activator_in PRIMARY_STATE_ACTIVE (_activators_state n) = true
               ↔ anyActive) by apply any_activator_in_spec.
  assert (HI : any_activator_in PRIMARY_STATE_INACTIVE (_activators_state n) = true
               ↔ anyInactive) by apply any_activator_in_spec.
  unfold to_configure, to_activate, to_deactivate.
  unfold update_state, bind, gets, ret. simpl.
  destruct (any_activator_in PRIMARY_STATE_ACTIVE _) eqn:EA;
  destruct (any_activator_in PRIMARY_STATE_INACTIVE _) eqn:EI; simpl;
  repeat case_bool_decide; simpl; repeat split;
  try reflexivity; try (intros; exfalso; intuition congruence).
Qed.

(** C10. With no activator record at all, nothing asks the host for a
    transition: [update_state] returns without any effect whatever the
    node's state, and an inbound relationship message (a REMOVE in
    particular) ends with the effects emitted so far unchanged. *)
Theorem no_activators_no_request (n : Node) :
  _activators_state n = ∅ →
  update_state host n = Ret tt n
  ∧ ∀ msg, effects <$> outcome_node (activations_callback host msg n)
           = Some (effects n).
Proof.
  intros Hempty. split.
  - unfold update_state, bind, gets, ret. simpl.
    rewrite Hempty, !any_activator_in_empty. simpl.
    by repeat case_bool_decide.
  - intros msg. unfold activations_callback, bind, gets, modify, ret. simpl.
    repeat case_bool_decide; simpl; try reflexivity.
    unfold activators_state_get, bind, gets, raise.
    by rewrite Hempty, lookup_empty.
Qed.

End Decision.

(** The decision table on four nodes, one for each row. *)
Lemma update_state_decision_witness :
  let n1 := mkNode "A" ["B"] [] {["B" := PRIMARY_STATE_INACTIVE]} "unconfigured" [] in
  let n2 := mkNode "A" ["B"] [] {["B" := PRIMARY_STATE_ACTIVE]} "inactive" [] in
  let n3 := mkNode "A" ["B"] [] {["B" := PRIMARY_STATE_INACTIVE]} "active" [] in
  let n4 := mkNode "A" ["B"] [] {["B" := PRIMARY_STATE_ACTIVE]} "active" [] in
  update_state lifecycle_host n1 = trigger lifecycle_host Configure n1
  ∧ update_state lifecycle_host n2 = trigger lifecycle_host Activate n2
  ∧ update_state lifecycle_host n3 = trigger lifecycle_host Deactivate n3
  ∧ update_state lifecycle_host n4 = Ret tt n4.
Proof.
  intros n1 n2 n3 n4. split; [| split; [| split]].
  - apply (proj1 (update_state_decision lifecycle_host n1)).
    split; [by left | right; by exists "B"].
  - apply (proj1 (proj2 (update_state_decision lifecycle_host n2))).
    split; [done | by exists "B"].
  - apply (proj1 (proj2 (proj2 (update_state_decision lifecycle_host n3)))).
    split; [done | split; [| by exists "B"]].
    apply any_activator_in_false. by vm_compute.
  - apply (proj2 (proj2 (proj2 (update_state_decision lifecycle_host n4)))).
    split; [| split].
    + intros [[?|?] _]; discriminate.
    + intros [? _]; discriminate.
    + intros (_ & Hno & _). apply Hno. by exists "B".
Defined.

(** A fresh node has no record, so it requests nothing. *)
Lemma no_activators_no_request_witness :
  update_state lifecycle_host (fresh "A") = Ret tt (fresh "A")
  ∧ ∀ msg, effects <$> outcome_node (activations_callback lifecycle_host msg (fresh "A"))
           = Some (effects (fresh "A")).
Proof. apply (no_activators_no_request lifecycle_host (fresh "A")). reflexivity. Defined.

(** ** Inbound relationship messages *)

Lemma list_remove_None (x : string) (l : list string) :
  list_remove x l = None ↔ x ∉ l.
Proof.
  induction l as [|y l IH]; simpl.
  - split; [intros _; apply not_elem_of_nil | done].
  - rewrite not_elem_of_cons. case_bool_decide as Hy.
    + split; [done | intros [Hne _]; by subst].
    + destruct (list_remove x l) eqn:E; simpl.
      * split; [done | intros [_ Hl]; by apply IH in Hl].
      * split; [intros _; split; [congruence | by apply IH] | done].
Qed.

Section Inbound.
Variable host : Transition → string → string.

(** What the ADD branch does when the message names this node as target:
    the activator is appended, and gets an Unknown record unless it has a
    record already. *)
Lemma ADD_to_self (n : Node) (a : string) :
  activations_callback host (ADD_msg (_node_name n) a) n
  = Ret tt (mkNode (_node_name n) (_activators n ++ [a]) (_activations n)
              (match _activators_state n !! a with
               | Some _ => _activators_state n
               | None => <[a := PRIMARY_STATE_UNKNOWN]> (_activators_state n)
               end)
              (current_state n) (effects n)).
Proof.
  unfold activations_callback, bind, gets, modify, ret. simpl.
  rewrite bool_decide_eq_true_2 by done. simpl.
  destruct (_activators_state n !! a) eqn:E; reflexivity.
Qed.

(** The REMOVE branch is guarded by [msg.activator not in self._activators]:
    for a tracked activator the handler returns at once. *)
Lemma REMOVE_tracked (n : Node) (target a : string) :
  a ∈ _activators n →
  activations_callback host (REMOVE_msg target a) n = Ret tt n.
Proof.
  intros Hin. unfold activations_callback, bind, gets, ret. simpl.
  rewrite (bool_decide_eq_false_2 (a ∉ _activators n)) by auto.
  by rewrite andb_false_r.
Qed.

Lemma REMOVE_other_target (n : Node) (target a : string) :
  target ≠ _node_name n →
  activations_callback host (REMOVE_msg target a) n = Ret tt n.
Proof.
  intros Hne. unfold activations_callback, bind, gets, ret. simpl.
  by rewrite (bool_decide_eq_false_2 (target = _node_name n)).
Qed.

(** Past the guard the handler cannot complete: the record lookup raises
    [KeyError], and where a record is left over [list.remove] raises
    [ValueError]; either way before anything is written. *)
Lemma REMOVE_past_guard (n : Node) (a : string) :
  a ∉ _activators n →
  activations_callback host (REMOVE_msg (_node_name n) a) n
  = Raise (match _activators_state n !! a with
           | Some _ => ValueError a
           | None => KeyError a
           end) n.
Proof.
  intros Hnin. unfold activations_callback, bind, gets, ret. simpl.
  rewrite !bool_decide_eq_true_2 by done. simpl.
  unfold activators_state_get, bind, gets, ret, raise.
  destruct (_activators_state n !! a); [| done].
  unfold activators_remove, bind, gets, raise.
  apply list_remove_None in Hnin. by rewrite Hnin.
Qed.

(** So a REMOVE message never changes the node. *)
Lemma REMOVE_never_writes (n : Node) (target a : string) :
  outcome_node (activations_callback host (REMOVE_msg target a) n) = Some n.
Proof.
  destruct (decide (target = _node_name n)) as [->|Hne];
    [| by rewrite REMOVE_other_target].
  destruct (decide (a ∈ _activators n)) as [Hin|Hnin];
    [by rewrite REMOVE_tracked | by rewrite REMOVE_past_guard].
Qed.

(** C8 (as amended). A relationship in which the node would activate itself
    is kept out on the sending side: [add_activation] with the node's own
    name publishes nothing and changes nothing.  The receiving side makes no
    such check: an inbound ADD whose target and activator are both this node
    is recorded like any other, the name appended to the activator list and
    given an Unknown record unless it has a record. *)
Theorem self_activation_guard (n : Node) :
  add_activation (_node_name n) n = Ret tt n
  ∧ activations_callback host (ADD_msg (_node_name n) (_node_name n)) n
    = Ret tt (mkNode (_node_name n) (_activators n ++ [_node_name n])
                (_activations n)
                (match _activators_state n !! _node_name n with
                 | Some _ => _activators_state n
                 | None => <[_node_name n := PRIMARY_STATE_UNKNOWN]>
                             (_activators_state n)
                 end)
                (current_state n) (effects n)).
Proof.
  split; [| apply ADD_to_self].
  unfold add_activation, bind, gets, ret. simpl.
  by rewrite bool_decide_eq_false_2 by auto.
Qed.

End Inbound.

(** C8 (as stated) fails: on a fresh node "A", the inbound ADD with target
    "A" and activator "A" changes both the activator list and the record
    map. *)
Lemma self_ADD_recorded :
  ∃ n', activations_callback lifecycle_host (ADD_msg "A" "A") (fresh "A") = Ret tt n'
        ∧ _activators n' ≠ _activators (fresh "A")
        ∧ _activators_state n' ≠ _activators_state (fresh "A").
Proof.
  exists (mkNode "A" ["A"] [] {["A" := PRIMARY_STATE_UNKNOWN]} "unconfigured" []).
  split; [by vm_compute | split; simpl].
  - discriminate.
  - intros H. apply (f_equal (λ m : gmap string Z, m !! "A")) in H.
    by rewrite lookup_singleton_eq, lookup_empty in H.
Qed.

(** C2. A REMOVE for an activator the node does not track, received by a
    fresh node "A": the handler raises [KeyError] (the registry is left as it
    was, but the call does not return). *)
Theorem REMOVE_untracked_raises :
  activations_callback lifecycle_host (REMOVE_msg "A" "B") (fresh "A")
  = Raise (KeyError "B") (fresh "A").
Proof. by vm_compute. Qed.

(** C3. Node "A" is Active and its only activator "B" is recorded Active; the
    REMOVE of "B" returns with the node untouched: "B" is still tracked and
    no deactivate has been requested. *)
Theorem REMOVE_last_active_ignored :
  let n := mkNode "A" ["B"] [] {["B" := PRIMARY_STATE_ACTIVE]} "active" [] in
  activations_callback lifecycle_host (REMOVE_msg "A" "B") n = Ret tt n.
Proof. by vm_compute. Qed.

(** C5. ADD then REMOVE of the same pair leaves the activator tracked; a
    second ADD makes a second entry; a REMOVE before any ADD raises. *)
Theorem ADD_REMOVE_sequences :
  (activations_callback lifecycle_host (ADD_msg "A" "B") ;;
   activations_callback lifecycle_host (REMOVE_msg "A" "B")) (fresh "A")
  = Ret tt (mkNode "A" ["B"] [] {["B" := PRIMARY_STATE_UNKNOWN]} "unconfigured" [])
  ∧ (activations_callback lifecycle_host (ADD_msg "A" "B") ;;
     activations_callback lifecycle_host (ADD_msg "A" "B")) (fresh "A")
    = Ret tt (mkNode "A" ["B"; "B"] [] {["B" := PRIMARY_STATE_UNKNOWN]}
                "unconfigured" [])
  ∧ (activations_callback lifecycle_host (REMOVE_msg "A" "B") ;;
     activations_callback lifecycle_host (ADD_msg "A" "B")) (fresh "A")
    = Raise (KeyError "B") (fresh "A").
Proof. repeat split; by vm_compute. Qed.

(** ** The activation API *)

(** [clear_activation] announces a REMOVE for every entry of
    [self._activators] other than the node itself, in order, and appends each
    such entry to [self._activations]. *)
Lemma for_each_remove_activation (l : list string) (n : Node) :
  let targets := filter (λ t, t ≠ _node_name n) l in
  for_each l remove_activation n
  = Ret tt (mkNode (_node_name n) (_activators n) (_activations n ++ targets)
              (_activators_state n) (current_state n)
              (effects n
               ++ ((λ t, PubActivation (REMOVE_msg t (_node_name n))) <$> targets))).
Proof.
  revert n. induction l as [|x l IH]; intros n; simpl.
  - unfold ret. rewrite !app_nil_r. by destruct n.
  - unfold bind at 1. unfold remove_activation, bind, gets, modify, ret. simpl.
    rewrite filter_cons. case_bool_decide as Hx.
    + rewrite decide_True by done. simpl. rewrite IH. simpl.
      by rewrite <- !app_assoc.
    + rewrite decide_False by auto. simpl. apply IH.
Qed.

(** X24. [clear_activation] walks the incoming activator list: for every
    entry other than the node itself, in list order, it announces one REMOVE
    with that entry as target and this node as activator and appends the
    entry to the outgoing list; it always returns, and it leaves the
    activator list, the records and the state machine as they were. *)
Lemma clear_activation_announces (n : Node) :
  let targets := filter (λ t, t ≠ _node_name n) (_activators n) in
  clear_activation n
  = Ret tt (mkNode (_node_name n) (_activators n) (_activations n ++ targets)
              (_activators_state n) (current_state n)
              (effects n
               ++ ((λ t, PubActivation (REMOVE_msg t (_node_name n))) <$> targets))).
Proof.
  unfold clear_activation, bind, gets.
  exact (for_each_remove_activation (_activators n) n).
Qed.

(** C7. After [add_activation "T"] on a fresh node "A", [clear_activation]
    publishes nothing: the only announcement is the ADD, and "T" is still in
    the outgoing list.  On a node with no outgoing activation that is itself
    activated by "B", [clear_activation] announces a REMOVE with target
    "B". *)
Theorem clear_activation_walks_activators :
  (add_activation "T" ;; clear_activation) (fresh "A")
  = Ret tt (mkNode "A" [] ["T"] ∅ "unconfigured"
              [PubActivation (ADD_msg "T" "A")])
  ∧ clear_activation
      (mkNode "A" ["B"] [] {["B" := PRIMARY_STATE_UNKNOWN]} "unconfigured" [])
    = Ret tt (mkNode "A" ["B"] ["B"] {["B" := PRIMARY_STATE_UNKNOWN]}
                "unconfigured" [PubActivation (REMOVE_msg "B" "A")]).
Proof. split; by vm_compute. Qed.

(** ** The reconciler *)

Lemma every_other_drop (x : string) (l : list string) :
  every_other (x :: l) = x :: every_other (drop 1 l).
Proof. by destruct l. Qed.

(** Removing the entry the cursor stands on (or an earlier copy of it) moves
    everything behind the cursor one place down. *)
Lemma list_remove_lookup (l : list string) (i : nat) (x : string) :
  l !! i = Some x →
  ∃ l', list_remove x l = Some l'
        ∧ length l = S (length l')
        ∧ drop i l' = drop (S i) l.
Proof.
  revert i. induction l as [|y l IH]; intros i Hi; [by destruct i |].
  simpl. case_bool_decide as Hy.
  - by exists l.
  - destruct i as [|i]; simpl in Hi; [congruence |].
    destruct (IH i Hi) as (l' & -> & Hlen & Hdrop).
    exists (y :: l'). simpl. by rewrite Hlen, Hdrop.
Qed.

Lemma list_remove_elem_of (l l' : list string) (x a : string) :
  list_remove x l = Some l' → a ≠ x → a ∈ l' ↔ a ∈ l.
Proof.
  revert l'. induction l as [|y l IH]; intros l' Hrm Hne; simpl in Hrm; [done |].
  case_bool_decide as Hy.
  - injection Hrm as <-. subst y. rewrite elem_of_cons. split; [by right |].
    by intros [?|?].
  - destruct (list_remove x l) as [l0|] eqn:E; simpl in Hrm; [| done].
    injection Hrm as <-. rewrite !elem_of_cons, (IH l0); done.
Qed.

Lemma list_remove_subseteq (l l' : list string) (x a : string) :
  list_remove x l = Some l' → a ∈ l' → a ∈ l.
Proof.
  revert l'. induction l as [|y l IH]; intros l' Hrm Hin; simpl in Hrm; [done |].
  case_bool_decide as Hy.
  - injection Hrm as <-. by apply list_elem_of_further.
  - destruct (list_remove x l) as [l0|] eqn:E; simpl in Hrm; [| done].
    injection Hrm as <-. apply elem_of_cons in Hin as [->|Hin].
    + apply list_elem_of_here.
    + apply list_elem_of_further. by apply (IH l0).
Qed.

Section Reconciler.
Variable host : Transition → string → string.
Variable nodes : list string.
Variable ns cs : string.

(** [update_state] may emit a request and move the state machine; it never
    writes the registry. *)
Lemma update_state_registry (n : Node) :
  ∃ n', update_state host n = Ret tt n'
        ∧ _node_name n' = _node_name n
        ∧ _activators n' = _activators n
        ∧ _activations n' = _activations n
        ∧ _activators_state n' = _activators_state n.
Proof.
  unfold update_state, trigger, bind, gets, modify, ret. simpl.
  destruct (any_activator_in PRIMARY_STATE_ACTIVE _),
           (any_activator_in PRIMARY_STATE_INACTIVE _); simpl;
    repeat case_bool_decide; eexists; split; try reflexivity; done.
Qed.

(** One turn of the loop, with the dictionary and list operations resolved. *)
Lemma timer_loop_step (fuel it : nat) (n : Node) :
  timer_loop host (S fuel) nodes ns cs it n
  = match _activators n !! it with
    | None => Ret [] n
    | Some x =>
      if bool_decide (ns +:+ x ∈ nodes) then
        match list_remove x (_activators n) with
        | None => Raise (ValueError x) n
        | Some l' =>
          match _activators_state n !! x with
          | None => Raise (KeyError x) (set_activators l' n)
          | Some _ =>
            match timer_loop host fuel nodes ns cs (S it)
                    (set_activators_state (delete x (_activators_state n))
                       (set_activators l' n)) with
            | Ret visited n' => Ret (x :: visited) n'
            | Raise e n' => Raise e n'
            | OutOfFuel => OutOfFuel
            end
          end
        end
      else
        match _activators n !! S it with
        | None => Ret [x] n
        | Some _ =>
          match timer_loop host fuel nodes ns cs (S (S it)) n with
          | Ret visited n' => Ret (x :: visited) n'
          | Raise e n' => Raise e n'
          | OutOfFuel => OutOfFuel
          end
        end
    end.
Proof.
  simpl. unfold bind at 1. unfold gets at 1.
  destruct (_activators n !! it) as [x|] eqn:Hit; [| done].
  case_bool_decide as Hlive.
  - unfold bind at 1. unfold activators_remove, bind at 1, gets at 1.
    destruct (list_remove x (_activators n)) as [l'|]; [| done].
    unfold modify at 1. unfold bind at 1.
    unfold activators_state_get, bind at 1, gets at 1. simpl.
    destruct (_activators_state n !! x) as [s|] eqn:Hs; [| done].
    unfold ret at 1. unfold bind at 1. unfold ret at 1. unfold bind at 1.
    unfold activators_state_del, bind at 1, gets at 1. simpl.
    rewrite Hs. unfold modify at 1. unfold bind at 1.
    by destruct (timer_loop _ _ _ _ _ _ _).
  - unfold bind at 1. unfold gets at 1.
    destruct (_activators n !! S it); [| done].
    unfold bind at 1. by destruct (timer_loop _ _ _ _ _ _ _).
Qed.

(** The loop always ends within the bound [timer_callback] gives it, and it
    can raise nothing but [KeyError].  When it returns, the names it has
    examined are every second entry of the list from the cursor on: the
    entry after each examined one is stepped over, whether or not the
    examined one was removed. *)
Lemma timer_loop_visits (fuel : nat) :
  ∀ (it : nat) (n : Node),
    (length (_activators n) - it < fuel)%nat →
    match timer_loop host fuel nodes ns cs it n with
    | Ret visited _ => visited = every_other (drop it (_activators n))
    | Raise e _ => ∃ k, e = KeyError k
    | OutOfFuel => False
    end.
Proof.
  induction fuel as [|fuel IH]; intros it n Hfuel; [lia |].
  rewrite timer_loop_step.
  destruct (_activators n !! it) as [x|] eqn:Hit.
  - assert (Hlt : (it < length (_activators n))%nat) by by eapply lookup_lt_Some.
    rewrite (drop_S _ _ _ Hit), every_other_drop, drop_drop.
    case_bool_decide as Hlive.
    + destruct (list_remove_lookup _ _ _ Hit) as (l' & -> & Hlen & Hdrop).
      destruct (_activators_state n !! x); [| by eexists].
      set (n1 := set_activators_state _ _).
      specialize (IH (S it) n1). simpl in IH.
      destruct (timer_loop _ _ _ _ _ _ n1).
      * rewrite IH by lia. do 2 f_equal.
        replace (S it) with (it + 1)%nat by lia.
        rewrite <- !(drop_drop _ 1), Hdrop.
        by rewrite (drop_drop _ 1 it), Nat.add_1_r.
      * apply IH. lia.
      * apply IH. lia.
    + destruct (_activators n !! S it) eqn:Hnext.
      * specialize (IH (S (S it)) n).
        destruct (timer_loop _ _ _ _ _ _ n).
        -- rewrite IH by lia. do 3 f_equal. lia.
        -- apply IH. lia.
        -- apply IH. lia.
      * apply lookup_ge_None in Hnext.
        rewrite drop_ge by lia. done.
  - apply lookup_ge_None in Hit. by rewrite drop_ge.
Qed.

(** An activator that is not among the live nodes is never dropped by the
    loop: it is tracked afterwards exactly if it was before, and its record
    is what it was, whether the loop returns or raises. *)
Lemma timer_loop_keeps_dead (a : string) (fuel : nat) :
  ns +:+ a ∉ nodes →
  ∀ (it : nat) (n n' : Node),
    outcome_node (timer_loop host fuel nodes ns cs it n) = Some n' →
    (a ∈ _activators n' ↔ a ∈ _activators n)
    ∧ _activators_state n' !! a = _activators_state n !! a.
Proof.
  intros Hdead. induction fuel as [|fuel IH]; intros it n n' Hout; [done |].
  rewrite timer_loop_step in Hout.
  destruct (_activators n !! it) as [x|] eqn:Hit; [| by injection Hout as <-].
  case_bool_decide as Hlive.
  - assert (Hne : a ≠ x) by (intros ->; done).
    destruct (list_remove x (_activators n)) as [l'|] eqn:Hrm;
      [| by injection Hout as <-].
    pose proof (list_remove_elem_of _ _ _ _ Hrm Hne) as Hmem.
    destruct (_activators_state n !! x); [| by injection Hout as <-].
    set (n1 := set_activators_state _ _) in Hout.
    specialize (IH (S it) n1 n').
    destruct (timer_loop _ _ _ _ _ _ n1); simpl in *; [| | done].
    + destruct (IH Hout) as [-> ->]. by rewrite lookup_delete_ne.
    + destruct (IH Hout) as [-> ->]. by rewrite lookup_delete_ne.
  - destruct (_activators n !! S it); [| by injection Hout as <-].
    specialize (IH (S (S it)) n n').
    destruct (timer_loop _ _ _ _ _ _ n); simpl in *; [by apply IH .. | done].
Qed.

End Reconciler.

Section Tick.
Variable host : Transition → string → string.

Lemma timer_callback_unfold (nodes : list string) (ns : string) (n : Node) :
  let ns' := if bool_decide (ns ≠ "/") then ns +:+ "/" else ns in
  let state :=
    if bool_decide (current_state n = "unknown") then PRIMARY_STATE_UNKNOWN
    else if bool_decide (current_state n = "unconfigured")
         then PRIMARY_STATE_UNCONFIGURED
    else if bool_decide (current_state n = "inactive") then PRIMARY_STATE_INACTIVE
    else if bool_decide (current_state n = "active") then PRIMARY_STATE_ACTIVE
    else 0 in
  timer_callback host nodes ns n
  = match timer_loop host (S (length (_activators n))) nodes ns'
            (current_state n) 0 n with
    | Ret _ n1 =>
      update_state host (emit (PubState (State.Build (_node_name n1) state)) n1)
    | Raise e n1 => Raise e n1
    | OutOfFuel => OutOfFuel
    end.
Proof.
  unfold timer_callback, bind, gets, modify.
  by destruct (timer_loop _ _ _ _ _ _ _).
Qed.

(** A tick always ends: it returns, or it raises [KeyError]. *)
Lemma timer_callback_ends (nodes : list string) (ns : string) (n : Node) :
  (∃ n', timer_callback host nodes ns n = Ret tt n')
  ∨ (∃ k n', timer_callback host nodes ns n = Raise (KeyError k) n').
Proof.
  rewrite timer_callback_unfold.
  match goal with |- context [timer_loop host ?f nodes ?ns' ?cs 0 n] =>
    pose proof (timer_loop_visits host nodes ns' cs f 0 n) as Hloop;
    destruct (timer_loop host f nodes ns' cs 0 n) as [v n1|e n1|]
  end.
  - left. destruct (update_state_registry host
                      (emit (PubState (State.Build (_node_name n1)
                         (if bool_decide (current_state n = "unknown")
                          then PRIMARY_STATE_UNKNOWN
                          else if bool_decide (current_state n = "unconfigured")
                          then PRIMARY_STATE_UNCONFIGURED
                          else if bool_decide (current_state n = "inactive")
                          then PRIMARY_STATE_INACTIVE
                          else if bool_decide (current_state n = "active")
                          then PRIMARY_STATE_ACTIVE else 0))) n1))
      as (n' & Hn' & _).
    by exists n'.
  - right. destruct Hloop as [k ->]; [lia |]. by exists k, n1.
  - exfalso. apply Hloop. lia.
Qed.

(** X23. A whole tick never drops an activator that is absent from the live
    nodes: whether the tick returns or raises, such an activator is tracked
    afterwards exactly if it was before, and its record is what it was. *)
Lemma timer_callback_keeps_dead (nodes : list string) (ns a : string)
    (n n' : Node) :
  (if bool_decide (ns ≠ "/") then ns +:+ "/" else ns) +:+ a ∉ nodes →
  outcome_node (timer_callback host nodes ns n) = Some n' →
  (a ∈ _activators n' ↔ a ∈ _activators n)
  ∧ _activators_state n' !! a = _activators_state n !! a.
Proof.
  intros Hdead. rewrite timer_callback_unfold.
  match goal with |- context [timer_loop host ?f nodes ?ns' ?cs 0 n] =>
    pose proof (timer_loop_keeps_dead host nodes ns' cs a f Hdead 0 n) as Hloop;
    destruct (timer_loop host f nodes ns' cs 0 n) as [v n1|e n1|]
  end; simpl; [| by apply Hloop | done].
  match goal with |- context [update_state host ?m] =>
    destruct (update_state_registry host m) as (n2 & -> & _ & Hl & _ & Hm)
  end.
  simpl. intros [= <-]. rewrite Hl, Hm. simpl. by apply Hloop.
Qed.

End Tick.

(** C1. Node "A" tracks "B" alone.  When "/B" is not among the live nodes
    the tick leaves "B" tracked, record and all; when "/B" is among them the
    tick drops "B" and its record. *)
Theorem reconciler_drops_the_living :
  let n := mkNode "A" ["B"] [] {["B" := PRIMARY_STATE_UNKNOWN]} "inactive" [] in
  let heartbeat := PubState (State.Build "A" PRIMARY_STATE_INACTIVE) in
  timer_callback lifecycle_host ["/A"] "/" n
  = Ret tt (mkNode "A" ["B"] [] {["B" := PRIMARY_STATE_UNKNOWN]} "inactive"
              [heartbeat])
  ∧ timer_callback lifecycle_host ["/A"; "/B"] "/" n
    = Ret tt (mkNode "A" [] [] ∅ "inactive" [heartbeat]).
Proof. split; by vm_compute. Qed.

(** C4. Node "A" tracks "B" and "C".  Whether both are live or neither is,
    one pass of the loop binds [node_name] to "B" only: "C" is stepped over,
    and so stays tracked even in the pass that drops "B". *)
Theorem reconciler_skips_entries :
  let n := mkNode "A" ["B"; "C"] []
             (<["B" := PRIMARY_STATE_ACTIVE]> {["C" := PRIMARY_STATE_INACTIVE]})
             "inactive" [] in
  timer_loop lifecycle_host (S (length (_activators n))) [] "/" "inactive" 0 n
  = Ret ["B"] n
  ∧ timer_loop lifecycle_host (S (length (_activators n))) ["/B"; "/C"] "/"
      "inactive" 0 n
    = Ret ["B"] (mkNode "A" ["C"] [] {["C" := PRIMARY_STATE_INACTIVE]}
                   "inactive" []).
Proof. split; by vm_compute. Qed.

(** ** Registry invariants *)

Lemma list_remove_NoDup (l l' : list string) (x : string) :
  NoDup l → list_remove x l = Some l' → NoDup l' ∧ x ∉ l'.
Proof.
  revert l'. induction l as [|y l IH]; intros l' Hnd Hrm; simpl in Hrm; [done |].
  apply NoDup_cons in Hnd as [Hy Hnd]. case_bool_decide as Hyx.
  - injection Hrm as <-. by subst y.
  - destruct (list_remove x l) as [l0|] eqn:E; simpl in Hrm; [| done].
    injection Hrm as <-. destruct (IH l0 Hnd eq_refl) as [Hnd0 Hx].
    split.
    + apply NoDup_cons. split; [| done].
      intros Hin. apply Hy. by eapply list_remove_subseteq.
    + apply not_elem_of_cons. split; [congruence | done].
Qed.

Section Invariants.
Variable host : Transition → string → string.

(** The ADD handler keeps both invariants. *)
Lemma ADD_keeps_invariants (n : Node) (a : string) :
  (edges_have_records n →
   ∀ n', activations_callback host (ADD_msg (_node_name n) a) n = Ret tt n' →
         edges_have_records n')
  ∧ (records_have_edges n →
     ∀ n', activations_callback host (ADD_msg (_node_name n) a) n = Ret tt n' →
           records_have_edges n').
Proof.
  rewrite ADD_to_self. split; intros Hinv n' [= <-] b; simpl.
  - rewrite elem_of_app, list_elem_of_singleton. intros [Hb| ->].
    + destruct (_activators_state n !! a) eqn:E; [by apply Hinv |].
      destruct (decide (a = b)) as [->|Hne].
      * rewrite lookup_insert_eq. by eexists.
      * rewrite lookup_insert_ne by done. by apply Hinv.
    + destruct (_activators_state n !! a) eqn:E; [by eexists |].
      rewrite lookup_insert_eq. by eexists.
  - rewrite elem_of_app, list_elem_of_singleton.
    destruct (_activators_state n !! a) eqn:E.
    + intros Hb. left. by apply Hinv.
    + destruct (decide (a = b)) as [->|Hne]; [by right |].
      rewrite lookup_insert_ne by done. intros Hb. left. by apply Hinv.
Qed.

(** The loop of the reconciler never leaves a record without its edge. *)
Lemma timer_loop_records_have_edges (nodes : list string) (ns cs : string)
    (fuel : nat) :
  ∀ (it : nat) (n n' : Node),
    records_have_edges n →
    outcome_node (timer_loop host fuel nodes ns cs it n) = Some n' →
    records_have_edges n'.
Proof.
  induction fuel as [|fuel IH]; intros it n n' Hinv Hout; [done |].
  rewrite timer_loop_step in Hout.
  destruct (_activators n !! it) as [x|] eqn:Hit; [| by injection Hout as <-].
  case_bool_decide as Hlive.
  - destruct (list_remove x (_activators n)) as [l'|] eqn:Hrm;
      [| by injection Hout as <-].
    destruct (_activators_state n !! x) eqn:Hx.
    + set (n1 := set_activators_state _ _) in Hout.
      assert (Hinv1 : records_have_edges n1).
      { intros b. simpl. destruct (decide (x = b)) as [->|Hne].
        - rewrite lookup_delete_eq. by intros [? ?].
        - rewrite lookup_delete_ne by done. intros Hb.
          apply (list_remove_elem_of _ _ _ _ Hrm); [done | by apply Hinv]. }
      specialize (IH (S it) n1 n' Hinv1).
      destruct (timer_loop _ _ _ _ _ _ n1); simpl in *; [by apply IH .. | done].
    + injection Hout as <-. intros b. simpl. intros Hb.
      apply (list_remove_elem_of _ _ _ _ Hrm); [| by apply Hinv].
      intros ->. rewrite Hx in Hb. by destruct Hb.
  - destruct (_activators n !! S it); [| by injection Hout as <-].
    specialize (IH (S (S it)) n n' Hinv).
    destruct (timer_loop _ _ _ _ _ _ n); simpl in *; [by apply IH .. | done].
Qed.

(** On a list without repetitions the loop keeps every remaining edge its
    record, and then it cannot raise. *)
Lemma timer_loop_edges_have_records (nodes : list string) (ns cs : string)
    (fuel : nat) :
  ∀ (it : nat) (n : Node),
    (length (_activators n) - it < fuel)%nat →
    NoDup (_activators n) →
    edges_have_records n →
    ∃ visited n', timer_loop host fuel nodes ns cs it n = Ret visited n'
                  ∧ NoDup (_activators n')
                  ∧ edges_have_records n'.
Proof.
  induction fuel as [|fuel IH]; intros it n Hfuel Hnd Hinv; [lia |].
  rewrite timer_loop_step.
  destruct (_activators n !! it) as [x|] eqn:Hit; [| by eexists _, _].
  assert (Hx : x ∈ _activators n) by by eapply list_elem_of_lookup_2.
  assert (Hlt : (it < length (_activators n))%nat) by by eapply lookup_lt_Some.
  case_bool_decide as Hlive.
  - destruct (list_remove_lookup _ _ _ Hit) as (l' & Hrm & Hlen & _).
    rewrite Hrm. destruct (list_remove_NoDup _ _ _ Hnd Hrm) as [Hnd' Hxl'].
    destruct (Hinv x Hx) as [s ->].
    set (n1 := set_activators_state _ _).
    assert (Hinv1 : edges_have_records n1).
    { intros b Hb. simpl in *. rewrite lookup_delete_ne by (intros ->; done).
      apply Hinv. by eapply list_remove_subseteq. }
    assert (Hfuel1 : (length (_activators n1) - S it < fuel)%nat)
      by (unfold n1; simpl; lia).
    destruct (IH (S it) n1 Hfuel1 Hnd' Hinv1) as (v & n' & -> & ? & ?).
    by eexists _, _.
  - destruct (_activators n !! S it) eqn:Hnext; [| by eexists _, _].
    apply lookup_lt_Some in Hnext.
    assert (Hfuel1 : (length (_activators n) - S (S it) < fuel)%nat) by lia.
    destruct (IH (S (S it)) n Hfuel1 Hnd Hinv) as (v & n' & -> & ? & ?).
    by eexists _, _.
Qed.

(** A whole tick never leaves a record without its edge either. *)
Lemma timer_callback_records_have_edges (nodes : list string) (ns : string)
    (n n' : Node) :
  records_have_edges n →
  outcome_node (timer_callback host nodes ns n) = Some n' →
  records_have_edges n'.
Proof.
  intros Hinv. rewrite timer_callback_unfold.
  match goal with |- context [timer_loop host ?f nodes ?ns' ?cs 0 n] =>
    pose proof (timer_loop_records_have_edges nodes ns' cs f 0 n) as Hloop;
    destruct (timer_loop host f nodes ns' cs 0 n) as [v n1|e n1|]
  end; simpl; [| by apply Hloop | done].
  match goal with |- context [update_state host ?m] =>
    destruct (update_state_registry host m) as (n2 & -> & _ & Hl & _ & Hm)
  end.
  simpl. intros [= <-] a. rewrite Hl, Hm. simpl. by apply Hloop.
Qed.

End Invariants.

(** C9. Two ADDs of "B" followed by a tick that sees "/B" leave "B" in the
    activator list with no record; the tick after that raises [KeyError]. *)
Theorem reconciler_orphans_duplicate :
  let two_adds_and_tick :=
    activations_callback lifecycle_host (ADD_msg "A" "B") ;;
    activations_callback lifecycle_host (ADD_msg "A" "B") ;;
    timer_callback lifecycle_host ["/A"; "/B"] "/" in
  let n' := mkNode "A" ["B"] [] ∅ "unconfigured"
              [PubState (State.Build "A" PRIMARY_STATE_UNCONFIGURED)] in
  two_adds_and_tick (fresh "A") = Ret tt n'
  ∧ "B" ∈ _activators n'
  ∧ _activators_state n' !! "B" = None
  ∧ timer_callback lifecycle_host ["/A"; "/B"] "/" n'
    = Raise (KeyError "B") (set_activators [] n').
Proof.
  repeat split; try by vm_compute.
  simpl. apply list_elem_of_here.
Qed.


(** ** Further properties of the inbound handlers *)

Section InboundMore.
Variable host : Transition → string → string.

(** X1. The relationship handler is silent: whatever the message and the
    node, it ends (returning or raising) with nothing published, no
    transition requested, and the state machine, the node's name and its
    outgoing list as they were. *)
Theorem activations_callback_silent (msg : Activation.t) (n : Node) :
  ∃ n', outcome_node (activations_callback host msg n) = Some n'
        ∧ effects n' = effects n
        ∧ current_state n' = current_state n
        ∧ _activations n' = _activations n
        ∧ _node_name n' = _node_name n.
Proof.
  destruct msg as [op target a].
  destruct (decide (op = Activation.REMOVE)) as [->|Hrm].
  - exists n. by rewrite (REMOVE_never_writes host n target a : outcome_node
      (activations_callback host (Activation.Build Activation.REMOVE target a) n)
      = Some n).
  - unfold activations_callback, bind, gets, modify, ret. simpl.
    repeat case_bool_decide; simpl; try done; eexists; split; try reflexivity;
      done.
Qed.

(** X2. A relationship message addressed to another node, or carrying an
    operation code that is neither ADD nor REMOVE, is ignored. *)
Theorem activations_callback_not_addressed (msg : Activation.t) (n : Node) :
  Activation.activation msg ≠ _node_name n
  ∨ (Activation.operation_type msg ≠ Activation.ADD
     ∧ Activation.operation_type msg ≠ Activation.REMOVE) →
  activations_callback host msg n = Ret tt n.
Proof.
  intros H. unfold activations_callback, bind, gets, modify, ret. simpl.
  repeat case_bool_decide; simpl; try done; by destruct H as [?|[? ?]].
Qed.

(** X3. What a REMOVE message does, in full.  It is ignored unless it names
    this node as target and an activator that is not in the activator list;
    in that one case the handler raises, [KeyError] when the activator has no
    record and [ValueError] when it has one.  The node is never changed. *)
Theorem REMOVE_outcome (n : Node) (target a : string) :
  activations_callback host (REMOVE_msg target a) n
  = if decide (target = _node_name n ∧ a ∉ _activators n)
    then Raise (match _activators_state n !! a with
                | Some _ => ValueError a
                | None => KeyError a
                end) n
    else Ret tt n.
Proof.
  case_decide as H.
  - destruct H as [-> Hnin]. by apply REMOVE_past_guard.
  - destruct (decide (target = _node_name n)) as [->|Hne];
      [| by apply REMOVE_other_target].
    apply REMOVE_tracked. destruct (decide (a ∈ _activators n)) as [|Hnin]; [done |].
    destruct H. by split.
Qed.

(** X4. An ADD addressed to this node makes the activator tracked and
    recorded, and a record that was there keeps its state: a repeated ADD
    does not reset what is known about the activator to Unknown.  No other
    activator's membership or record changes. *)
Theorem ADD_tracks_and_keeps_state (n : Node) (a : string) :
  ∃ n', activations_callback host (ADD_msg (_node_name n) a) n = Ret tt n'
        ∧ a ∈ _activators n'
        ∧ _activators_state n' !! a
          = Some (default PRIMARY_STATE_UNKNOWN (_activators_state n !! a))
        ∧ ∀ b, b ≠ a →
               (b ∈ _activators n' ↔ b ∈ _activators n)
               ∧ _activators_state n' !! b = _activators_state n !! b.
Proof.
  rewrite ADD_to_self. eexists. split; [reflexivity |]. simpl.
  split; [| split].
  - apply elem_of_app. right. apply list_elem_of_here.
  - destruct (_activators_state n !! a) eqn:E; simpl; [done |].
    by rewrite lookup_insert_eq.
  - intros b Hb. split.
    + rewrite elem_of_app, list_elem_of_singleton.
      split; [by intros [?|?] | by left].
    + destruct (_activators_state n !! a); [done |].
      by rewrite lookup_insert_ne.
Qed.

(** The state handler on an announcement that changes a record: the record
    is written, then the decision runs. *)
Lemma states_callback_changed (n : Node) (name : string) (s s0 : Z) :
  name ≠ _node_name n →
  _activators_state n !! name = Some s0 →
  s0 ≠ s →
  states_callback host (State.Build name s) n
  = update_state host
      (set_activators_state (<[name := s]> (_activators_state n)) n).
Proof.
  intros Hne Hrec Hs. unfold states_callback, bind, gets, modify. simpl.
  rewrite Hrec. rewrite (bool_decide_eq_true_2 (is_Some (Some s0))) by by eexists.
  rewrite (bool_decide_eq_true_2 (name ≠ _node_name n)) by done. simpl.
  rewrite bool_decide_eq_true_2; [done | congruence].
Qed.

Lemma states_callback_unchanged (msg : State.t) (n : Node) :
  _activators_state n !! State.node_name msg = None
  ∨ State.node_name msg = _node_name n
  ∨ _activators_state n !! State.node_name msg = Some (State.state msg) →
  states_callback host msg n = Ret tt n.
Proof.
  intros H. unfold states_callback, bind, gets, modify, ret. simpl.
  repeat case_bool_decide; simpl; try done.
  destruct H as [H|[H|H]]; [| done | done].
  match goal with Hs : is_Some _ |- _ => rewrite H in Hs; by destruct Hs end.
Qed.

(** The state handler always returns; it writes at most the one record the
    announcement is about, and never adds or drops a key or an edge. *)
Lemma states_callback_registry (msg : State.t) (n : Node) :
  ∃ n', states_callback host msg n = Ret tt n'
        ∧ _node_name n' = _node_name n
        ∧ _activators n' = _activators n
        ∧ _activations n' = _activations n
        ∧ (∀ b, is_Some (_activators_state n' !! b)
                ↔ is_Some (_activators_state n !! b))
        ∧ (∀ b, b ≠ State.node_name msg →
                _activators_state n' !! b = _activators_state n !! b).
Proof.
  destruct msg as [name s].
  destruct (_activators_state n !! name) as [s0|] eqn:Hrec;
    [| exists n; by rewrite states_callback_unchanged by (by left)].
  destruct (decide (name = _node_name n)) as [Hself|Hne];
    [exists n; by rewrite states_callback_unchanged by (right; by left) |].
  destruct (decide (s0 = s)) as [->|Hs];
    [exists n; by rewrite states_callback_unchanged by (right; by right) |].
  rewrite (states_callback_changed n name s s0) by done.
  destruct (update_state_registry host
              (set_activators_state (<[name := s]> (_activators_state n)) n))
    as (n' & -> & Hname & Hl & Hout & Hm).
  exists n'. rewrite Hname, Hl, Hout, Hm. simpl.
  repeat split; try done.
  - destruct (decide (name = b)) as [<-|Hb].
    + rewrite lookup_insert_eq, Hrec. done.
    + by rewrite lookup_insert_ne.
  - destruct (decide (name = b)) as [<-|Hb].
    + rewrite lookup_insert_eq, Hrec. done.
    + by rewrite lookup_insert_ne.
  - intros b Hb. by rewrite lookup_insert_ne.
Qed.

(** X5. A state announcement is ignored when it comes from a node without a
    record, from this node itself, or repeats the state already recorded:
    nothing is written and the decision is not run. *)
Theorem states_callback_ignored (msg : State.t) (n : Node) :
  _activators_state n !! State.node_name msg = None
  ∨ State.node_name msg = _node_name n
  ∨ _activators_state n !! State.node_name msg = Some (State.state msg) →
  states_callback host msg n = Ret tt n.
Proof.
  intros H. unfold states_callback, bind, gets, ret. simpl.
  destruct H as [H|[H|H]].
  - rewrite H. by rewrite (bool_decide_eq_false_2 (is_Some None))
      by (by intros [? ?]).
  - rewrite (bool_decide_eq_false_2 (State.node_name msg ≠ _node_name n))
      by auto.
    by rewrite andb_false_r.
  - rewrite H. rewrite (bool_decide_eq_false_2 (Some _ ≠ Some _)) by auto.
    by destruct (_ && _).
Qed.

(** X6. The state handler never raises and never changes who is tracked: the
    activator list and the set of recorded activators are as before, and the
    only record that can change is the announcer's.  So it creates no record
    for a node that no ADD has introduced. *)
Theorem states_callback_frame (msg : State.t) (n : Node) :
  ∃ n', states_callback host msg n = Ret tt n'
        ∧ _activators n' = _activators n
        ∧ (∀ b, is_Some (_activators_state n' !! b)
                ↔ is_Some (_activators_state n !! b))
        ∧ (∀ b, b ≠ State.node_name msg →
                _activators_state n' !! b = _activators_state n !! b).
Proof.
  destruct (states_callback_registry msg n) as (n' & ? & _ & ? & _ & ? & ?).
  by exists n'.
Qed.

End InboundMore.

(** The instances of X2 and X5. *)
Lemma activations_callback_not_addressed_witness :
  activations_callback lifecycle_host (ADD_msg "Z" "B") (fresh "A")
  = Ret tt (fresh "A").
Proof.
  apply (activations_callback_not_addressed lifecycle_host
           (ADD_msg "Z" "B") (fresh "A")).
  left. simpl. discriminate.
Defined.

Lemma states_callback_ignored_witness :
  states_callback lifecycle_host (State.Build "B" PRIMARY_STATE_ACTIVE) (fresh "A")
  = Ret tt (fresh "A").
Proof.
  apply (states_callback_ignored lifecycle_host
           (State.Build "B" PRIMARY_STATE_ACTIVE) (fresh "A")).
  left. reflexivity.
Defined.

(** ** The cascade, announcement by announcement *)

Lemma any_activator_in_insert (s : Z) (name : string) (m : gmap string Z) :
  any_activator_in s (<[name := s]> m) = true.
Proof. apply any_activator_in_spec. exists name. apply lookup_insert_eq. Qed.

Lemma any_activator_in_insert_other (s s' : Z) (name : string)
    (m : gmap string Z) :
  s' ≠ s →
  (∀ b, b ≠ name → m !! b ≠ Some s) →
  any_activator_in s (<[name := s']> m) = false.
Proof.
  intros Hs Hm. apply any_activator_in_false. intros [b Hb].
  destruct (decide (name = b)) as [<-|Hne].
  - rewrite lookup_insert_eq in Hb. congruence.
  - rewrite lookup_insert_ne in Hb by done. by apply (Hm b).
Qed.

Section Cascade.
Variable host : Transition → string → string.

(** X7. A node that is Unconfigured (or Unknown) asks to be configured as
    soon as a recorded activator announces Active or Inactive: the record is
    updated and configure requested in the same call. *)
Theorem announcement_configures (n : Node) (name : string) (s s0 : Z) :
  name ≠ _node_name n →
  _activators_state n !! name = Some s0 →
  s0 ≠ s →
  s = PRIMARY_STATE_ACTIVE ∨ s = PRIMARY_STATE_INACTIVE →
  current_state n = "unconfigured" ∨ current_state n = "unknown" →
  states_callback host (State.Build name s) n
  = trigger host Configure
      (set_activators_state (<[name := s]> (_activators_state n)) n).
Proof.
  intros Hne Hrec Hs Hwhich Hcur.
  rewrite (states_callback_changed host n name s s0) by done.
  unfold update_state, bind, gets. simpl.
  destruct Hwhich as [-> | ->]; rewrite any_activator_in_insert;
    destruct Hcur as [-> | ->]; simpl; by rewrite ?orb_true_r.
Qed.

(** X8. An Inactive node asks to be activated as soon as a recorded
    activator announces Active. *)
Theorem announcement_activates (n : Node) (name : string) (s0 : Z) :
  name ≠ _node_name n →
  _activators_state n !! name = Some s0 →
  s0 ≠ PRIMARY_STATE_ACTIVE →
  current_state n = "inactive" →
  states_callback host (State.Build name PRIMARY_STATE_ACTIVE) n
  = trigger host Activate
      (set_activators_state
         (<[name := PRIMARY_STATE_ACTIVE]> (_activators_state n)) n).
Proof.
  intros Hne Hrec Hs Hcur.
  rewrite (states_callback_changed host n name _ s0) by done.
  unfold update_state, bind, gets. simpl.
  by rewrite any_activator_in_insert, Hcur.
Qed.

(** X9. An Active node asks to be deactivated when an activator announces
    Inactive and no other activator is recorded Active. *)
Theorem announcement_deactivates (n : Node) (name : string) (s0 : Z) :
  name ≠ _node_name n →
  _activators_state n !! name = Some s0 →
  s0 ≠ PRIMARY_STATE_INACTIVE →
  (∀ b, b ≠ name → _activators_state n !! b ≠ Some PRIMARY_STATE_ACTIVE) →
  current_state n = "active" →
  states_callback host (State.Build name PRIMARY_STATE_INACTIVE) n
  = trigger host Deactivate
      (set_activators_state
         (<[name := PRIMARY_STATE_INACTIVE]> (_activators_state n)) n).
Proof.
  intros Hne Hrec Hs Hothers Hcur.
  rewrite (states_callback_changed host n name _ s0) by done.
  unfold update_state, bind, gets. simpl.
  rewrite any_activator_in_insert, Hcur.
  by rewrite (any_activator_in_insert_other PRIMARY_STATE_ACTIVE).
Qed.

(** X10. Only an Inactive record deactivates.  When an activator of an
    Active node announces any other state (Finalized, Unconfigured, Unknown)
    and no other activator is recorded Inactive, the record is updated and
    no transition is requested: the node stays Active even if that was its
    last Active activator. *)
Theorem announcement_other_than_inactive_keeps_active (n : Node)
    (name : string) (s s0 : Z) :
  name ≠ _node_name n →
  _activators_state n !! name = Some s0 →
  s0 ≠ s →
  s ≠ PRIMARY_STATE_INACTIVE →
  (∀ b, b ≠ name → _activators_state n !! b ≠ Some PRIMARY_STATE_INACTIVE) →
  current_state n = "active" →
  states_callback host (State.Build name s) n
  = Ret tt (set_activators_state (<[name := s]> (_activators_state n)) n).
Proof.
  intros Hne Hrec Hs Hnot Hothers Hcur.
  rewrite (states_callback_changed host n name s s0) by done.
  unfold update_state, bind, gets. simpl.
  rewrite Hcur. simpl.
  rewrite (any_activator_in_insert_other PRIMARY_STATE_INACTIVE s) by done.
  by rewrite andb_false_r.
Qed.


(** X12. What one node announces with [add_activation] is what makes it an
    activator of the other: the ADD it publishes, handled by the node it
    names, leaves the announcer tracked there with a record. *)
Theorem add_activation_delivered (x y : Node) :
  _node_name y ≠ _node_name x →
  ∃ x' y',
    add_activation (_node_name y) x = Ret tt x'
    ∧ effects x'
      = (effects x
         ++ [PubActivation (ADD_msg (_node_name y) (_node_name x))])%list
    ∧ activations_callback host (ADD_msg (_node_name y) (_node_name x)) y
      = Ret tt y'
    ∧ _node_name x ∈ _activators y'
    ∧ is_Some (_activators_state y' !! _node_name x).
Proof.
  intros Hne. rewrite ADD_to_self.
  unfold add_activation, bind, gets, modify. simpl.
  rewrite bool_decide_eq_true_2 by done.
  eexists _, _. split; [reflexivity |]. split; [reflexivity |].
  split; [reflexivity |]. simpl. split.
  - apply elem_of_app. right. apply list_elem_of_here.
  - destruct (_activators_state y !! _node_name x) eqn:E; [by rewrite E |].
    by rewrite lookup_insert_eq.
Qed.

End Cascade.

(** The instances of X7 to X12: node "A" with the one activator "B". *)
Lemma announcement_configures_witness :
  let n := mkNode "A" ["B"] [] {["B" := PRIMARY_STATE_UNKNOWN]} "unconfigured" [] in
  states_callback lifecycle_host (State.Build "B" PRIMARY_STATE_INACTIVE) n
  = trigger lifecycle_host Configure
      (set_activators_state
         (<["B" := PRIMARY_STATE_INACTIVE]> (_activators_state n)) n).
Proof.
  intros n.
  apply (announcement_configures lifecycle_host n "B" PRIMARY_STATE_INACTIVE
           PRIMARY_STATE_UNKNOWN);
    [discriminate | reflexivity | discriminate | by right | by left].
Defined.

Lemma announcement_activates_witness :
  let n := mkNode "A" ["B"] [] {["B" := PRIMARY_STATE_INACTIVE]} "inactive" [] in
  states_callback lifecycle_host (State.Build "B" PRIMARY_STATE_ACTIVE) n
  = trigger lifecycle_host Activate
      (set_activators_state
         (<["B" := PRIMARY_STATE_ACTIVE]> (_activators_state n)) n).
Proof.
  intros n.
  apply (announcement_activates lifecycle_host n "B" PRIMARY_STATE_INACTIVE);
    [discriminate | reflexivity | discriminate | reflexivity].
Defined.

Lemma announcement_deactivates_witness :
  let n := mkNode "A" ["B"] [] {["B" := PRIMARY_STATE_ACTIVE]} "active" [] in
  states_callback lifecycle_host (State.Build "B" PRIMARY_STATE_INACTIVE) n
  = trigger lifecycle_host Deactivate
      (set_activators_state
         (<["B" := PRIMARY_STATE_INACTIVE]> (_activators_state n)) n).
Proof.
  intros n.
  apply (announcement_deactivates lifecycle_host n "B" PRIMARY_STATE_ACTIVE);
    [discriminate | reflexivity | discriminate | | reflexivity].
  intros b Hb. simpl. by rewrite lookup_singleton_ne.
Defined.

Lemma announcement_other_than_inactive_keeps_active_witness :
  let n := mkNode "A" ["B"] [] {["B" := PRIMARY_STATE_ACTIVE]} "active" [] in
  states_callback lifecycle_host (State.Build "B" PRIMARY_STATE_FINALIZED) n
  = Ret tt (set_activators_state
              (<["B" := PRIMARY_STATE_FINALIZED]> (_activators_state n)) n).
Proof.
  intros n.
  apply (announcement_other_than_inactive_keeps_active lifecycle_host n "B"
           PRIMARY_STATE_FINALIZED PRIMARY_STATE_ACTIVE);
    [discriminate | reflexivity | discriminate | discriminate | | reflexivity].
  intros b Hb. simpl. by rewrite lookup_singleton_ne.
Defined.


Lemma add_activation_delivered_witness :
  ∃ x' y',
    add_activation "A" (fresh "B") = Ret tt x'
    ∧ effects x' = [PubActivation (ADD_msg "A" "B")]
    ∧ activations_callback lifecycle_host (ADD_msg "A" "B") (fresh "A") = Ret tt y'
    ∧ "B" ∈ _activators y'
    ∧ is_Some (_activators_state y' !! "B").
Proof.
  apply (add_activation_delivered lifecycle_host (fresh "B") (fresh "A")).
  simpl. discriminate.
Defined.

(** ** Further properties of the reconciler *)

Lemma list_remove_sublist (l l' : list string) (x : string) :
  list_remove x l = Some l' → l' `sublist_of` l.
Proof.
  revert l'. induction l as [|y l IH]; intros l' Hrm; simpl in Hrm; [done |].
  case_bool_decide as Hy.
  - injection Hrm as <-. by apply sublist_cons.
  - destruct (list_remove x l) as [l0|] eqn:E; simpl in Hrm; [| done].
    injection Hrm as <-. apply sublist_skip. by apply IH.
Qed.

Section ReconcilerMore.
Variable host : Transition → string → string.
Variable nodes : list string.
Variable ns cs : string.




(** With no tracked activator live the loop changes nothing. *)
Lemma timer_loop_all_dead (fuel : nat) :
  ∀ (it : nat) (n : Node),
    (length (_activators n) - it < fuel)%nat →
    (∀ a, a ∈ _activators n → ns +:+ a ∉ nodes) →
    ∃ visited, timer_loop host fuel nodes ns cs it n = Ret visited n.
Proof.
  induction fuel as [|fuel IH]; intros it n Hfuel Hdead; [lia |].
  rewrite timer_loop_step.
  destruct (_activators n !! it) as [x|] eqn:Hit; [| by eexists].
  assert (Hx : x ∈ _activators n) by by eapply list_elem_of_lookup_2.
  rewrite bool_decide_eq_false_2 by by apply Hdead.
  destruct (_activators n !! S it) eqn:Hnext; [| by eexists].
  apply lookup_lt_Some in Hnext.
  destruct (IH (S (S it)) n) as [v ->]; [lia | done |]. by eexists.
Qed.

(** The loop only ever takes away: what is tracked afterwards was tracked
    before, in the same order, and a record that is there afterwards was
    there before with the same state. *)
Lemma timer_loop_shrinks (fuel : nat) :
  ∀ (it : nat) (n n' : Node),
    outcome_node (timer_loop host fuel nodes ns cs it n) = Some n' →
    _activators n' `sublist_of` _activators n
    ∧ ∀ a s, _activators_state n' !! a = Some s →
             _activators_state n !! a = Some s.
Proof.
  induction fuel as [|fuel IH]; intros it n n' Hout; [done |].
  rewrite timer_loop_step in Hout.
  destruct (_activators n !! it) as [x|]; [| by injection Hout as <-].
  case_bool_decide.
  - destruct (list_remove x (_activators n)) as [l'|] eqn:Hrm;
      [| by injection Hout as <-].
    apply list_remove_sublist in Hrm.
    destruct (_activators_state n !! x); [| by injection Hout as <-].
    set (n1 := set_activators_state _ _) in Hout.
    assert (Hn1 : outcome_node (timer_loop host fuel nodes ns cs (S it) n1)
                  = Some n')
      by (destruct (timer_loop _ _ _ _ _ _ n1); done).
    destruct (IH (S it) n1 n' Hn1) as [Hsub Hrec]. simpl in *. split.
    + by etrans.
    + intros a s Ha. apply Hrec in Ha.
      apply lookup_delete_Some in Ha. by destruct Ha.
  - destruct (_activators n !! S it); [| by injection Hout as <-].
    apply (IH (S (S it)) n n').
    by destruct (timer_loop _ _ _ _ _ _ n).
Qed.

(** X13. One pass of the reconciler's loop examines every second entry of
    the activator list, and only those: when the pass returns, the names it
    has bound to [node_name] are the first, third, fifth ... entries of the
    list as it was when the pass began. *)
Theorem reconciler_pass_examines (n n' : Node) (visited : list string) :
  timer_loop host (S (length (_activators n))) nodes ns cs 0 n
  = Ret visited n' →
  visited = every_other (_activators n).
Proof.
  intros Hret.
  pose proof (timer_loop_visits host nodes ns cs
                (S (length (_activators n))) 0 n) as Hloop.
  rewrite Hret in Hloop. rewrite Hloop by lia. by rewrite drop_0.
Qed.

End ReconcilerMore.

(** The instance of X13: four tracked activators, the first and third are
    examined. *)
Lemma reconciler_pass_examines_witness :
  let n := mkNode "A" ["B"; "C"; "D"; "E"] [] ∅ "inactive" [] in
  timer_loop lifecycle_host 5 [] "/" "inactive" 0 n = Ret ["B"; "D"] n
  ∧ ["B"; "D"] = every_other (_activators n).
Proof.
  intros n.
  assert (H : timer_loop lifecycle_host (S (length (_activators n))) [] "/"
                "inactive" 0 n = Ret ["B"; "D"] n) by reflexivity.
  split; [exact H |].
  exact (reconciler_pass_examines lifecycle_host [] "/" "inactive" n n
           ["B"; "D"] H).
Defined.

Section TickMore.
Variable host : Transition → string → string.


(** X15. A tick in which no tracked activator is among the live nodes leaves
    the registry alone: it is the heartbeat followed by one decision. *)
Theorem tick_nothing_live (nodes : list string) (ns : string) (n : Node) :
  let ns' := if bool_decide (ns ≠ "/") then ns +:+ "/" else ns in
  (∀ a, a ∈ _activators n → ns' +:+ a ∉ nodes) →
  timer_callback host nodes ns n
  = update_state host
      (emit (PubState (State.Build (_node_name n)
                         (heartbeat_state (current_state n)))) n).
Proof.
  intros ns' Hdead. rewrite timer_callback_unfold. fold ns'.
  destruct (timer_loop_all_dead host nodes ns' (current_state n)
              (S (length (_activators n))) 0 n) as [v ->]; [lia | done |].
  reflexivity.
Qed.

(** X16. A tick only ever takes away.  Whether it returns or raises, the
    activators tracked afterwards were tracked before, in the same order,
    and every record found afterwards was there before with the same state:
    the reconciler never introduces an activator and never rewrites what is
    known about one. *)
Theorem tick_never_adds (nodes : list string) (ns : string) (n n' : Node) :
  outcome_node (timer_callback host nodes ns n) = Some n' →
  _activators n' `sublist_of` _activators n
  ∧ ∀ a s, _activators_state n' !! a = Some s →
           _activators_state n !! a = Some s.
Proof.
  rewrite timer_callback_unfold.
  match goal with |- context [timer_loop host ?f nodes ?ns' ?cs 0 n] =>
    pose proof (timer_loop_shrinks host nodes ns' cs f 0 n) as Hloop;
    destruct (timer_loop host f nodes ns' cs 0 n) as [v n1|e n1|]
  end; simpl; [| by apply Hloop | done].
  match goal with |- context [update_state host ?m] =>
    destruct (update_state_registry host m) as (n2 & -> & _ & Hl & _ & Hm)
  end.
  simpl. intros [= <-]. rewrite Hl, Hm. simpl. by apply Hloop.
Qed.

(** X17. On a registry in which no activator is listed twice and every
    listed activator has a record, a tick cannot raise, and the registry it
    leaves has the same two properties. *)
Theorem tick_safe_without_repetitions (nodes : list string) (ns : string)
    (n : Node) :
  NoDup (_activators n) →
  edges_have_records n →
  ∃ n', timer_callback host nodes ns n = Ret tt n'
        ∧ NoDup (_activators n')
        ∧ edges_have_records n'.
Proof.
  intros Hnd Hinv. rewrite timer_callback_unfold.
  match goal with |- context [timer_loop host ?f nodes ?ns' ?cs 0 n] =>
    destruct (timer_loop_edges_have_records host nodes ns' cs f 0 n)
      as (v & n1 & -> & Hnd1 & Hinv1); [lia | done | done |]
  end.
  match goal with |- context [update_state host ?m] =>
    destruct (update_state_registry host m) as (n2 & -> & _ & Hl & _ & Hm)
  end.
  exists n2. split; [done |]. simpl in *. split; [by rewrite Hl |].
  intros a. rewrite Hl, Hm. apply Hinv1.
Qed.

End TickMore.

(** The instances of X15 to X17. *)
Lemma tick_nothing_live_witness :
  let n := mkNode "A" ["B"] [] {["B" := PRIMARY_STATE_ACTIVE]} "finalized" [] in
  timer_callback lifecycle_host ["/A"] "/" n
  = update_state lifecycle_host
      (emit (PubState (State.Build "A" PRIMARY_STATE_UNKNOWN)) n).
Proof.
  intros n. apply (tick_nothing_live lifecycle_host ["/A"] "/" n).
  intros a Ha. apply list_elem_of_singleton in Ha as ->.
  apply not_elem_of_cons. split; [discriminate | apply not_elem_of_nil].
Defined.

Lemma tick_never_adds_witness :
  let n := mkNode "A" ["B"; "C"] []
             (<["B" := PRIMARY_STATE_ACTIVE]> {["C" := PRIMARY_STATE_INACTIVE]})
             "inactive" [] in
  let n' := mkNode "A" ["C"] [] {["C" := PRIMARY_STATE_INACTIVE]} "inactive"
              [PubState (State.Build "A" PRIMARY_STATE_INACTIVE)] in
  _activators n' `sublist_of` _activators n
  ∧ ∀ a s, _activators_state n' !! a = Some s →
           _activators_state n !! a = Some s.
Proof.
  intros n n'.
  apply (tick_never_adds lifecycle_host ["/B"; "/C"] "/" n n').
  by vm_compute.
Defined.

Lemma tick_safe_without_repetitions_witness :
  let n := mkNode "A" ["B"; "C"] []
             (<["B" := PRIMARY_STATE_ACTIVE]> {["C" := PRIMARY_STATE_INACTIVE]})
             "inactive" [] in
  ∃ n', timer_callback lifecycle_host ["/B"; "/C"] "/" n = Ret tt n'
        ∧ NoDup (_activators n')
        ∧ edges_have_records n'.
Proof.
  intros n.
  apply (tick_safe_without_repetitions lifecycle_host ["/B"; "/C"] "/" n).
  - simpl. apply NoDup_cons. split.
    + intros H. apply list_elem_of_singleton in H. discriminate.
    + apply NoDup_singleton.
  - intros a Ha. simpl in Ha.
    apply elem_of_cons in Ha as [->|Ha]; [by eexists |].
    apply list_elem_of_singleton in Ha as ->. by eexists.
Defined.

(** ** Runs *)

Section Runs.
Variable host : Transition → string → string.

Lemma activations_callback_skip (msg : Activation.t) (n : Node) :
  Activation.activation msg ≠ _node_name n
  ∨ (Activation.operation_type msg ≠ Activation.ADD
     ∧ Activation.operation_type msg ≠ Activation.REMOVE) →
  activations_callback host msg n = Ret tt n.
Proof.
  intros H. unfold activations_callback, bind, gets, modify, ret. simpl.
  repeat case_bool_decide; simpl; try done; by destruct H as [?|[? ?]].
Qed.

(** The three calls of the activation API leave the incoming registry and
    the node's name alone. *)
Lemma api_registry (i : Input) (n : Node) :
  match i with CallAdd _ | CallRemove _ | CallClear => True | _ => False end →
  ∃ n', handle host i n = Ret tt n'
        ∧ _node_name n' = _node_name n
        ∧ _activators n' = _activators n
        ∧ _activators_state n' = _activators_state n.
Proof.
  destruct i as [| | |name|name|]; try done; intros _; simpl.
  - unfold add_activation, bind, gets, modify, ret. simpl.
    case_bool_decide; by eexists.
  - unfold remove_activation, bind, gets, modify, ret. simpl.
    case_bool_decide; by eexists.
  - unfold clear_activation, bind, gets.
    rewrite for_each_remove_activation. by eexists.
Qed.

(** Every handler keeps the name, and keeps every record attached to a
    tracked activator, however it ends. *)
Lemma handle_records_have_edges (i : Input) (n n' : Node) :
  records_have_edges n →
  outcome_node (handle host i n) = Some n' →
  records_have_edges n'.
Proof.
  intros Hinv Hout. destruct i as [msg|msg|nodes ns|name|name|]; simpl in Hout.
  - destruct msg as [op target a].
    destruct (decide (op = Activation.REMOVE)) as [->|Hrm].
    { change (Activation.Build Activation.REMOVE target a)
        with (REMOVE_msg target a) in Hout.
      rewrite REMOVE_never_writes in Hout. by injection Hout as <-. }
    destruct (decide (target = _node_name n)) as [->|Hne];
      [| rewrite activations_callback_skip in Hout by (by left);
         by injection Hout as <-].
    destruct (decide (op = Activation.ADD)) as [->|Hadd];
      [| rewrite activations_callback_skip in Hout by (by right);
         by injection Hout as <-].
    change (Activation.Build Activation.ADD (_node_name n) a)
      with (ADD_msg (_node_name n) a) in Hout.
    destruct (activations_callback host (ADD_msg (_node_name n) a) n)
      as [[] n1| |] eqn:E; [| by rewrite ADD_to_self in E | done].
    injection Hout as <-.
    by apply (proj2 (ADD_keeps_invariants host n a) Hinv n1).
  - destruct (states_callback_registry host msg n)
      as (n1 & Hn1 & _ & Hl & _ & Hdom & _).
    rewrite Hn1 in Hout. injection Hout as <-.
    intros a Ha. rewrite Hl. apply Hinv. by apply Hdom.
  - by eapply timer_callback_records_have_edges.
  - destruct (api_registry (CallAdd name) n I) as (n1 & Hn1 & _ & Hl & Hm).
    simpl in Hn1. rewrite Hn1 in Hout. injection Hout as <-.
    intros a. rewrite Hl, Hm. apply Hinv.
  - destruct (api_registry (CallRemove name) n I) as (n1 & Hn1 & _ & Hl & Hm).
    simpl in Hn1. rewrite Hn1 in Hout. injection Hout as <-.
    intros a. rewrite Hl, Hm. apply Hinv.
  - destruct (api_registry CallClear n I) as (n1 & Hn1 & _ & Hl & Hm).
    simpl in Hn1. rewrite Hn1 in Hout. injection Hout as <-.
    intros a. rewrite Hl, Hm. apply Hinv.
Qed.

Lemma reaches_records_have_edges (n n' : Node) :
  reaches host n n' → records_have_edges n → records_have_edges n'.
Proof.
  induction 1 as [|n n1 n' i Hstep _ IH]; [done |].
  intros Hinv. apply IH. by eapply handle_records_have_edges.
Qed.

(** X18. No run of the node leaves a record without its edge.  Whatever
    messages arrive, whenever the timer fires, whatever the owner calls, and
    whether or not a handler raises on the way, every activator with a record
    is still in the activator list afterwards, provided that was so at the
    start (as it is for a new node, which has no record). *)
Theorem records_have_edges_always (n n' : Node) :
  reaches host n n' → records_have_edges n → records_have_edges n'.
Proof.
  intros Hrun. induction Hrun as [|n n1 n' i Hstep _ IH]; [done |].
  intros Hinv. apply IH. exact (handle_records_have_edges i n n1 Hinv Hstep).
Qed.

(** X19. On a node that started with no record, the REMOVE handler never
    gets as far as [list.remove]: after any run, a REMOVE message is either
    ignored or raises [KeyError] on the record lookup. *)
Theorem REMOVE_after_any_run (n n' : Node) (target a : string) :
  reaches host n n' →
  _activators_state n = ∅ →
  activations_callback host (REMOVE_msg target a) n' = Ret tt n'
  ∨ activations_callback host (REMOVE_msg target a) n' = Raise (KeyError a) n'.
Proof.
  intros Hrun Hempty.
  assert (Hinv : records_have_edges n').
  { apply (reaches_records_have_edges n n' Hrun).
    intros b [s Hs]. by rewrite Hempty, lookup_empty in Hs. }
  destruct (decide (target = _node_name n')) as [->|Hne];
    [| left; by apply REMOVE_other_target].
  destruct (decide (a ∈ _activators n')) as [Hin|Hnin];
    [left; by apply REMOVE_tracked |].
  right. rewrite REMOVE_past_guard by done.
  destruct (_activators_state n' !! a) eqn:E; [| done].
  exfalso. apply Hnin, Hinv. by eexists.
Qed.

End Runs.

(** The instances of X18 and X19: a fresh node "A" that has received an ADD
    from "B". *)
Lemma records_have_edges_always_witness :
  records_have_edges
    (mkNode "A" ["B"] [] {["B" := PRIMARY_STATE_UNKNOWN]} "unconfigured" []).
Proof.
  set (n' := mkNode "A" ["B"] [] {["B" := PRIMARY_STATE_UNKNOWN]}
               "unconfigured" []).
  apply (records_have_edges_always lifecycle_host (fresh "A") n').
  - apply (reaches_step lifecycle_host (fresh "A") n' n'
             (RecvActivation (ADD_msg "A" "B")));
      [by vm_compute | apply reaches_here].
  - intros b [s Hs]. simpl in Hs. by rewrite lookup_empty in Hs.
Defined.

Lemma REMOVE_after_any_run_witness :
  let n' := mkNode "A" ["B"] [] {["B" := PRIMARY_STATE_UNKNOWN]}
              "unconfigured" [] in
  activations_callback lifecycle_host (REMOVE_msg "A" "C") n' = Ret tt n'
  ∨ activations_callback lifecycle_host (REMOVE_msg "A" "C") n'
    = Raise (KeyError "C") n'.
Proof.
  intros n'.
  apply (REMOVE_after_any_run lifecycle_host (fresh "A") n' "A" "C").
  - apply (reaches_step lifecycle_host (fresh "A") n' n'
             (RecvActivation (ADD_msg "A" "B")));
      [by vm_compute | apply reaches_here].
  - reflexivity.
Defined.

(** ** The transition hooks and the cascade between nodes *)

Section HooksMore.
Variable host : Transition → string → string.
Variables LState CallbackReturn : Type.
Variable super : LState → CallbackReturn.

(** X20. Each of the six hooks returns what the overridden method returns,
    after publishing one state announcement in the node's own name and
    touching nothing else; and that announcement, which the node also
    receives on its own subscription, is ignored by its state handler. *)
Theorem hook_announcement_ignored_at_home (h : LState → Py CallbackReturn)
    (state : LState) (n : Node) :
  h ∈ [on_configure LState CallbackReturn super;
       on_cleanup LState CallbackReturn super;
       on_shutdown LState CallbackReturn super;
       on_activate LState CallbackReturn super;
       on_deactivate LState CallbackReturn super;
       on_error LState CallbackReturn super] →
  ∃ s, let msg := State.Build (_node_name n) s in
       h state n = Ret (super state) (emit (PubState msg) n)
       ∧ states_callback host msg (emit (PubState msg) n)
         = Ret tt (emit (PubState msg) n).
Proof.
  intros H.
  repeat (apply elem_of_cons in H as [->|H]);
    [ exists PRIMARY_STATE_INACTIVE | exists PRIMARY_STATE_UNCONFIGURED
    | exists PRIMARY_STATE_FINALIZED | exists PRIMARY_STATE_ACTIVE
    | exists PRIMARY_STATE_INACTIVE | exists PRIMARY_STATE_FINALIZED
    | by apply elem_of_nil in H ];
    (split; [reflexivity |];
     apply states_callback_unchanged; right; left; reflexivity).
Qed.

(** X21. Activation cascades from node to node: what [on_activate]
    publishes at an activator, handled by an Inactive node that tracks the
    activator with any other recorded state, makes that node request
    activate. *)
Theorem on_activate_cascades (x y : Node) (state : LState) (s0 : Z) :
  _node_name x ≠ _node_name y →
  _activators_state y !! _node_name x = Some s0 →
  s0 ≠ PRIMARY_STATE_ACTIVE →
  current_state y = "inactive" →
  ∃ msg,
    on_activate LState CallbackReturn super state x
    = Ret (super state) (emit (PubState msg) x)
    ∧ states_callback host msg y
      = trigger host Activate
          (set_activators_state
             (<[_node_name x := PRIMARY_STATE_ACTIVE]> (_activators_state y)) y).
Proof.
  intros Hne Hrec Hs Hcur.
  exists (State.Build (_node_name x) PRIMARY_STATE_ACTIVE).
  split; [reflexivity |].
  rewrite (states_callback_changed host y (_node_name x) _ s0) by done.
  unfold update_state, bind, gets. simpl.
  by rewrite any_activator_in_insert, Hcur.
Qed.

(** X22. Shutdown does not cascade.  What [on_shutdown] (or [on_error])
    publishes at an activator is Finalized; an Active node that tracks the
    activator records it and requests nothing, unless some other activator
    is recorded Inactive.  So a node whose only activator shuts down stays
    Active. *)
Theorem activator_shutdown_keeps_node_active (x y : Node) (state : LState)
    (s0 : Z) :
  _node_name x ≠ _node_name y →
  _activators_state y !! _node_name x = Some s0 →
  s0 ≠ PRIMARY_STATE_FINALIZED →
  (∀ b, b ≠ _node_name x →
        _activators_state y !! b ≠ Some PRIMARY_STATE_INACTIVE) →
  current_state y = "active" →
  ∃ msg,
    on_shutdown LState CallbackReturn super state x
    = Ret (super state) (emit (PubState msg) x)
    ∧ on_error LState CallbackReturn super state x
      = Ret (super state) (emit (PubState msg) x)
    ∧ states_callback host msg y
      = Ret tt (set_activators_state
                  (<[_node_name x := PRIMARY_STATE_FINALIZED]>
                     (_activators_state y)) y).
Proof.
  intros Hne Hrec Hs Hothers Hcur.
  exists (State.Build (_node_name x) PRIMARY_STATE_FINALIZED).
  split; [reflexivity |]. split; [reflexivity |].
  rewrite (states_callback_changed host y (_node_name x) _ s0) by done.
  unfold update_state, bind, gets. simpl. rewrite Hcur. simpl.
  rewrite (any_activator_in_insert_other PRIMARY_STATE_INACTIVE
             PRIMARY_STATE_FINALIZED) by done.
  by rewrite andb_false_r.
Qed.

End HooksMore.

(** The instances of X20 to X22, with [unit] for the host's two types. *)
Lemma hook_announcement_ignored_at_home_witness :
  ∃ s, let msg := State.Build "A" s in
       on_activate unit unit id tt (fresh "A")
       = Ret tt (emit (PubState msg) (fresh "A"))
       ∧ states_callback lifecycle_host msg (emit (PubState msg) (fresh "A"))
         = Ret tt (emit (PubState msg) (fresh "A")).
Proof.
  apply (hook_announcement_ignored_at_home lifecycle_host unit unit id
           (on_activate unit unit id) tt (fresh "A")).
  do 3 apply list_elem_of_further. apply list_elem_of_here.
Defined.

Lemma on_activate_cascades_witness :
  let y := mkNode "A" ["B"] [] {["B" := PRIMARY_STATE_INACTIVE]} "inactive" [] in
  ∃ msg,
    on_activate unit unit id tt (fresh "B")
    = Ret tt (emit (PubState msg) (fresh "B"))
    ∧ states_callback lifecycle_host msg y
      = trigger lifecycle_host Activate
          (set_activators_state
             (<["B" := PRIMARY_STATE_ACTIVE]> (_activators_state y)) y).
Proof.
  intros y.
  apply (on_activate_cascades lifecycle_host unit unit id (fresh "B") y tt
           PRIMARY_STATE_INACTIVE);
    [discriminate | reflexivity | discriminate | reflexivity].
Defined.

Lemma activator_shutdown_keeps_node_active_witness :
  let y := mkNode "A" ["B"] [] {["B" := PRIMARY_STATE_ACTIVE]} "active" [] in
  ∃ msg,
    on_shutdown unit unit id tt (fresh "B")
    = Ret tt (emit (PubState msg) (fresh "B"))
    ∧ on_error unit unit id tt (fresh "B")
      = Ret tt (emit (PubState msg) (fresh "B"))
    ∧ states_callback lifecycle_host msg y
      = Ret tt (set_activators_state
                  (<["B" := PRIMARY_STATE_FINALIZED]> (_activators_state y)) y).
Proof.
  intros y.
  apply (activator_shutdown_keeps_node_active lifecycle_host unit unit id
           (fresh "B") y tt PRIMARY_STATE_ACTIVE);
    [discriminate | reflexivity | discriminate | | reflexivity].
  intros b Hb. simpl. by rewrite lookup_singleton_ne.
Defined.

(** ** Orderings *)

Section Orderings.
Variable host : Transition → string → string.

(** X25. A state announcement that arrives before the ADD of its sender is
    lost: the handler ignores it, and the ADD that follows records the
    sender as Unknown, as if the announcement had never been sent. *)
Theorem announcement_before_ADD_is_lost (n : Node) (a : string) (s : Z) :
  _activators_state n !! a = None →
  (states_callback host (State.Build a s) ;;
   activations_callback host (ADD_msg (_node_name n) a)) n
  = Ret tt (mkNode (_node_name n) (_activators n ++ [a]) (_activations n)
              (<[a := PRIMARY_STATE_UNKNOWN]> (_activators_state n))
              (current_state n) (effects n)).
Proof.
  intros Hrec. unfold bind at 1.
  rewrite states_callback_unchanged by (by left).
  by rewrite ADD_to_self, Hrec.
Qed.

(** X26. The reconciler drops the living.  When the first entry of the
    activator list is among the live nodes, has a record and is not listed a
    second time, then after the tick, however it ends, that activator is no
    longer tracked and has no record. *)
Theorem tick_drops_live_head (nodes : list string) (ns a : string)
    (l : list string) (n n' : Node) :
  _activators n = a :: l →
  a ∉ l →
  is_Some (_activators_state n !! a) →
  (if bool_decide (ns ≠ "/") then ns +:+ "/" else ns) +:+ a ∈ nodes →
  outcome_node (timer_callback host nodes ns n) = Some n' →
  (a ∉ _activators n') ∧ _activators_state n' !! a = None.
Proof.
  intros Hl Hnin [s Hrec] Hlive. rewrite timer_callback_unfold.
  set (ns' := if bool_decide (ns ≠ "/") then ns +:+ "/" else ns) in *.
  rewrite timer_loop_step, Hl.
  change ((a :: l) !! 0%nat) with (Some a). cbv beta iota.
  rewrite (bool_decide_eq_true_2 _ Hlive).
  replace (list_remove a (a :: l)) with (Some l)
    by (simpl; by rewrite bool_decide_eq_true_2).
  rewrite Hrec.
  set (n1 := set_activators_state _ _).
  pose proof (timer_loop_shrinks host nodes ns' (current_state n)
                (length (a :: l)) 1 n1) as Hloop.
  assert (Hn1 : ∀ n2, outcome_node (timer_loop host (length (a :: l)) nodes ns'
                                      (current_state n) 1 n1) = Some n2 →
                      (a ∉ _activators n2)
                      ∧ _activators_state n2 !! a = None).
  { intros n2 Hn2. destruct (Hloop n2 Hn2) as [Hsub Hm]. simpl in *. split.
    - intros Hin. apply Hnin. by eapply elem_of_sublist.
    - destruct (_activators_state n2 !! a) as [s2|] eqn:E; [| done].
      apply Hm in E. by rewrite lookup_delete_eq in E. }
  destruct (timer_loop host _ nodes ns' (current_state n) 1 n1)
    as [v n2|e n2|]; simpl; [| intros [= <-]; by apply Hn1 | done].
  match goal with |- context [update_state host ?m] =>
    destruct (update_state_registry host m) as (n3 & -> & _ & Hl3 & _ & Hm3)
  end.
  simpl. intros [= <-]. rewrite Hl3, Hm3. simpl. by apply Hn1.
Qed.

End Orderings.

(** The instances of X23 to X26. *)
Lemma timer_callback_keeps_dead_witness :
  let n := mkNode "A" ["B"] [] {["B" := PRIMARY_STATE_ACTIVE]} "inactive" [] in
  let n' := mkNode "A" ["B"] [] {["B" := PRIMARY_STATE_ACTIVE]} "active"
              [PubState (State.Build "A" PRIMARY_STATE_INACTIVE);
               Trigger Activate] in
  ("B" ∈ _activators n' ↔ "B" ∈ _activators n)
  ∧ _activators_state n' !! "B" = _activators_state n !! "B".
Proof.
  intros n n'.
  apply (timer_callback_keeps_dead lifecycle_host ["/A"] "/" "B" n n').
  - apply not_elem_of_cons. split; [discriminate | apply not_elem_of_nil].
  - by vm_compute.
Defined.

Lemma announcement_before_ADD_is_lost_witness :
  (states_callback lifecycle_host (State.Build "B" PRIMARY_STATE_ACTIVE) ;;
   activations_callback lifecycle_host (ADD_msg "A" "B")) (fresh "A")
  = Ret tt (mkNode "A" ["B"] [] {["B" := PRIMARY_STATE_UNKNOWN]}
              "unconfigured" []).
Proof.
  apply (announcement_before_ADD_is_lost lifecycle_host (fresh "A") "B"
           PRIMARY_STATE_ACTIVE).
  reflexivity.
Defined.

Lemma tick_drops_live_head_witness :
  let n := mkNode "A" ["B"; "C"] []
             (<["B" := PRIMARY_STATE_ACTIVE]> {["C" := PRIMARY_STATE_INACTIVE]})
             "inactive" [] in
  let n' := mkNode "A" ["C"] [] {["C" := PRIMARY_STATE_INACTIVE]} "inactive"
              [PubState (State.Build "A" PRIMARY_STATE_INACTIVE)] in
  ("B" ∉ _activators n') ∧ _activators_state n' !! "B" = None.
Proof.
  intros n n'.
  apply (tick_drops_live_head lifecycle_host ["/B"; "/C"] "/" "B" ["C"] n n').
  - reflexivity.
  - apply not_elem_of_cons. split; [discriminate | apply not_elem_of_nil].
  - by eexists.
  - apply list_elem_of_here.
  - by vm_compute.
Defined.
